(** * NunchukO: a shallow embedding of the Nunchuk driver (NunchukO.h, I2C.h)

    The driver [Nunchuk<T>] owns a transport [m_Wire] of a class [T] that
    implements the abstract interface [I2C], and a six byte array
    [m_NunchukData].  [read()] polls the transport for one frame, and the
    accessors decode the frame.

    Integers are modelled as [Z] with the conversions of C written out:
    [uint8_t], [uint16_t], [int8_t] and [int16_t] wrap, and [int] is the
    16 bit [int] of the AVR targets the library is written for.

    [init()] is modelled with what it sends to [Serial]; the printing
    functions [print()] and [printRaw()] and the accessors that return a
    [float] ([getJoystickAngle], [getPitch], [getRoll]) are not part of this
    development. *)

From Stdlib Require Import ZArith Lia.
From stdpp Require Import base decidable option list fin vector strings.
From Equations Require Import Equations.

Local Open Scope Z_scope.

(** ** Fixed width integers *)

Definition to_u8 (z : Z) : Z := z mod 256.
Definition to_u16 (z : Z) : Z := z mod 65536.
Definition to_i8 (z : Z) : Z := (z + 128) mod 256 - 128.
Definition to_i16 (z : Z) : Z := (z + 32768) mod 65536 - 32768.
(** [int] and [unsigned int] of the target. *)
Definition to_int (z : Z) : Z := to_i16 z.
Definition to_uint (z : Z) : Z := to_u16 z.

Definition is_u8 (z : Z) : Prop := 0 <= z < 256.

(** The conversions between [bool] and [int]: a comparison yields 0 or 1,
    and an [int] used as a [bool] is true when it is not zero. *)
Definition int_of_bool (b : bool) : Z := if b then 1 else 0.
Definition bool_of_int (z : Z) : bool := negb (z =? 0).

(** ** The constants of NunchukO.h *)

Definition NUNCHUK_MESSAGE_SIZE : Z := 6.
Definition NUNCHUK_ADDRESS : Z := 0x52.
Definition NUNCHUK_SPEED : Z := 400000.
Definition NUNCHUK_JOYSTICK_X_ZERO : Z := 128.
Definition NUNCHUK_JOYSTICK_Y_ZERO : Z := 128.
Definition NUNCHUK_ACCEL_X_ZERO : Z := 512.
Definition NUNCHUK_ACCEL_Y_ZERO : Z := 512.
Definition NUNCHUK_ACCEL_Z_ZERO : Z := 512.

(** The build switch [NUNCHUK_DISABLE_ENCRYPTION].  NunchukO.h defines it;
    the [#else] branches are kept, selected by the flag. *)
Record Config : Type := {
  NUNCHUK_DISABLE_ENCRYPTION : bool
}.

Definition plain_mode : Config := {| NUNCHUK_DISABLE_ENCRYPTION := true |}.
Definition obfuscated_mode : Config := {| NUNCHUK_DISABLE_ENCRYPTION := false |}.

(** ** The frame: [uint8_t m_NunchukData[NUNCHUK_MESSAGE_SIZE]], six bytes *)

Definition Frame : Type := vec Z 6.

Definition frame_ok (d : Frame) : Prop := ∀ i, is_u8 (d !!! i).

(** [d[i] = v] with a run-time index.  Writing outside the array is
    undefined in C: the embedding stops with [None] there. *)
Definition store (i : Z) (v : Z) (d : Frame) : option Frame :=
  if decide (0 <= i) then
    match decide (Z.to_nat i < 6)%nat with
    | left H => Some (vinsert (nat_to_fin H) v d)
    | right _ => None
    end
  else None.

(** ** [decodeByte] *)

Definition decodeByte (cfg : Config) (byte : Z) : Z :=
  if NUNCHUK_DISABLE_ENCRYPTION cfg then byte
  else to_u8 (to_int (to_int (Z.lxor byte 0x17) + 0x17)).

(** ** The transport interface of I2C.h

    A transport is a state machine: every member function takes the state of
    the bus object and gives the next one, with the value it returns. *)

Module I2C.

Class I2C (T : Type) : Type := {
  setClock : Z → T → T;
  start : Z → T → T;
  stop : T → T;
  write : Z → T → Z * T;
  write_buf : list Z → Z → T → Z * T;
  requestFrom : Z → Z → T → Z * T;
  read : T → Z * T;
  available : T → Z * T
}.

End I2C.

Export I2C (I2C).

(** ** The driver object *)

Record Nunchuk (T : Type) : Type := MkNunchuk {
  m_Wire : T;
  m_NunchukData : Frame
}.
Arguments MkNunchuk {T} _ _.
Arguments m_Wire {T} _.
Arguments m_NunchukData {T} _.

(** Member functions run in a state and error monad over the object: the
    state is the object, the error is undefined behaviour. *)
Definition M (T A : Type) : Type := Nunchuk T → option (A * Nunchuk T).

Definition ret {T A} (a : A) : M T A := λ n, Some (a, n).

Definition bind {T A B} (m : M T A) (k : A → M T B) : M T B :=
  λ n, match m n with
       | Some (a, n') => k a n'
       | None => None
       end.

Declare Scope drv_scope.
Delimit Scope drv_scope with drv.
Notation "x <- m ;; k" := (bind m (λ x, k))
  (at level 100, m at next level, right associativity) : drv_scope.
Notation "m ;; k" := (bind m (λ _, k))
  (at level 100, right associativity) : drv_scope.

(** A call [m_Wire.f(...)]. *)
Definition wire {T A} (f : T → A * T) : M T A :=
  λ n, let '(a, w) := f (m_Wire n) in Some (a, MkNunchuk w (m_NunchukData n)).

Definition wire_ {T} (f : T → T) : M T unit :=
  λ n, Some (tt, MkNunchuk (f (m_Wire n)) (m_NunchukData n)).

(** [m_NunchukData[i] = v]. *)
Definition set_data {T} (i v : Z) : M T unit :=
  λ n, match store i v (m_NunchukData n) with
       | Some d => Some (tt, MkNunchuk (m_Wire n) d)
       | None => None
       end.

(** What [init()] does besides the bus: the values it hands to [Serial], in
    order, and the pause at its end.  [Serial.print(b, HEX)] is kept as the
    byte and its base, not as the digits. *)
Inductive Out : Type :=
| PrintHex (v : Z)
| PrintStr (s : string)
| Println
| Delay (ms : Z).

Module Nunchuk.
Section Driver.

Context {T : Type} `{!I2C T}.
Variable cfg : Config.

Local Open Scope drv_scope.

(** The body of the [for] loop of [read()]:
    [m_NunchukData[i] = decodeByte(m_Wire.read());]. *)
Definition read_body (i : Z) : M T unit :=
  b <- wire I2C.read;;
  set_data i (decodeByte cfg b).

(** [for (...; i < NUNCHUK_MESSAGE_SIZE && m_Wire.available(); i++)]:
    [&&] does not call [available()] once [i] has reached the size.  The
    function gives the value of [i] at the exit. *)
Equations? read_loop (i : Z) (n : Nunchuk T) : option (Z * Nunchuk T)
  by wf (Z.to_nat (NUNCHUK_MESSAGE_SIZE - i)) lt :=
  read_loop i n with Z_lt_dec i NUNCHUK_MESSAGE_SIZE => {
    | right _ => Some (i, n)
    | left Hlt with wire I2C.available n => {
        | None => None
        | Some (a, n1) with bool_of_int a => {
            | false => Some (i, n1)
            | true with read_body i n1 => {
                | None => None
                | Some (_, n2) => read_loop (to_u8 (i + 1)) n2 } } } }.
Proof.
  unfold NUNCHUK_MESSAGE_SIZE, to_u8 in *.
  pose proof (Z.mod_pos_bound (i + 1) 256 eq_refl) as Hm.
  destruct (Z_lt_dec i 0) as [Hneg | Hpos]; [lia |].
  rewrite Z.mod_small by lia. lia.
Defined.

(** [bool read()]. *)
Definition read : M T bool :=
  wire (I2C.requestFrom NUNCHUK_ADDRESS NUNCHUK_MESSAGE_SIZE);;
  i <- read_loop 0;;
  wire_ (I2C.start NUNCHUK_ADDRESS);;
  wire (I2C.write 0x00);;
  wire_ I2C.stop;;
  ret (i =? 6).

(** The accessors.  In [(~m_NunchukData[5] >> k) & 1 == 1] the comparison
    binds tighter than [&]: the right operand of [&] is [1 == 1]. *)
Definition getButtonZ (n : Nunchuk T) : bool :=
  bool_of_int
    (Z.land (to_int (Z.shiftr (to_int (Z.lnot (m_NunchukData n !!! 5%fin))) 0))
            (int_of_bool (1 =? 1))).

Definition getButtonC (n : Nunchuk T) : bool :=
  bool_of_int
    (Z.land (to_int (Z.shiftr (to_int (Z.lnot (m_NunchukData n !!! 5%fin))) 1))
            (int_of_bool (1 =? 1))).

Definition getJoystickRawX (n : Nunchuk T) : Z := m_NunchukData n !!! 0%fin.
Definition getJoystickRawY (n : Nunchuk T) : Z := m_NunchukData n !!! 1%fin.

(** [((uint16_t) m_NunchukData[k] << 2) | ((m_NunchukData[5] >> s) & 3)]:
    the left operand is an [unsigned int], the right one an [int]. *)
Definition accel_raw (coarse : Z) (fine : Z) (s : Z) : Z :=
  to_u16 (to_uint (Z.lor (to_uint (Z.shiftl (to_u16 coarse) 2))
                         (to_uint (to_int (Z.land (to_int (Z.shiftr fine s)) 3))))).

Definition getAccelRawX (n : Nunchuk T) : Z :=
  accel_raw (m_NunchukData n !!! 2%fin) (m_NunchukData n !!! 5%fin) 2.
Definition getAccelRawY (n : Nunchuk T) : Z :=
  accel_raw (m_NunchukData n !!! 3%fin) (m_NunchukData n !!! 5%fin) 4.
Definition getAccelRawZ (n : Nunchuk T) : Z :=
  accel_raw (m_NunchukData n !!! 4%fin) (m_NunchukData n !!! 5%fin) 6.

Definition getJoystickY (n : Nunchuk T) : Z :=
  to_i8 (to_int (to_i16 (getJoystickRawY n) - NUNCHUK_JOYSTICK_Y_ZERO)).
Definition getJoystickX (n : Nunchuk T) : Z :=
  to_i8 (to_int (to_i16 (getJoystickRawX n) - NUNCHUK_JOYSTICK_X_ZERO)).

Definition getAccelX (n : Nunchuk T) : Z :=
  to_i16 (to_int (to_i16 (getAccelRawX n) - to_i16 NUNCHUK_ACCEL_X_ZERO)).
Definition getAccelY (n : Nunchuk T) : Z :=
  to_i16 (to_int (to_i16 (getAccelRawY n) - to_i16 NUNCHUK_ACCEL_Y_ZERO)).
Definition getAccelZ (n : Nunchuk T) : Z :=
  to_i16 (to_int (to_i16 (getAccelRawZ n) - to_i16 NUNCHUK_ACCEL_Z_ZERO)).

(** The loop of the identity query of [init()]:
    [for (uint8_t i = 0; i < 6; i++) if (m_Wire.available()) {
       Serial.print(m_Wire.read(), HEX); Serial.print(" "); }].
    It always makes its six turns; [out] is what was printed so far. *)
Equations? init_loop (i : Z) (out : list Out) (n : Nunchuk T)
  : option (list Out * Nunchuk T)
  by wf (Z.to_nat (6 - i)) lt :=
  init_loop i out n with Z_lt_dec i 6 => {
    | right _ => Some (out, n)
    | left Hlt with wire I2C.available n => {
        | None => None
        | Some (a, n1) with bool_of_int a => {
            | false => init_loop (to_u8 (i + 1)) out n1
            | true with wire I2C.read n1 => {
                | None => None
                | Some (b, n2) =>
                    init_loop (to_u8 (i + 1))
                      (out ++ [PrintHex b; PrintStr " "%string]) n2 } } } }.
Proof.
  all: unfold to_u8 in *.
  all: pose proof (Z.mod_pos_bound (i + 1) 256 eq_refl) as Hm.
  all: destruct (Z_lt_dec i 0) as [Hneg | Hpos]; [lia |].
  all: rewrite Z.mod_small by lia; lia.
Defined.

(** [void init()], with the second build switch [NUNCHUK_DEBUG] as an
    argument.  The result is what was sent to [Serial]. *)
Definition init (NUNCHUK_DEBUG : bool) : M T (list Out) :=
  wire_ (I2C.setClock 400000);;
  (if NUNCHUK_DISABLE_ENCRYPTION cfg then
     wire_ (I2C.start NUNCHUK_ADDRESS);;
     wire (I2C.write 0xF0);;
     wire (I2C.write 0x55);;
     wire_ I2C.stop;;
     wire_ (I2C.start NUNCHUK_ADDRESS);;
     wire (I2C.write 0xFB);;
     wire (I2C.write 0x00);;
     wire_ I2C.stop
   else
     wire_ (I2C.start NUNCHUK_ADDRESS);;
     wire (I2C.write 0x40);;
     wire (I2C.write 0x00);;
     wire_ I2C.stop);;
  if NUNCHUK_DEBUG then
    wire_ (I2C.start NUNCHUK_ADDRESS);;
    wire (I2C.write 0xFA);;
    wire_ I2C.stop;;
    wire (I2C.requestFrom NUNCHUK_ADDRESS NUNCHUK_MESSAGE_SIZE);;
    out <- init_loop 0 [];;
    wire_ I2C.stop;;
    ret (out ++ [Println; Delay 100])
  else ret [].

End Driver.
End Nunchuk.

(** ** Observing a transport

    [Logged T] is the transport [T] with a record of the member functions
    called on it, oldest first.  The value returned is recorded for [read()]
    and [available()], the two calls whose result the driver uses. *)

Inductive Call : Type :=
| CSetClock (clock : Z)
| CStart (addr : Z)
| CStop
| CWrite (data : Z)
| CWriteBuf (data : list Z) (len : Z)
| CRequestFrom (address length : Z)
| CRead (byte : Z)
| CAvailable (count : Z).

Record Logged (T : Type) : Type := MkLogged {
  inner : T;
  calls : list Call
}.
Arguments MkLogged {T} _ _.
Arguments inner {T} _.
Arguments calls {T} _.

Definition logged {T A} (f : T → A * T) (c : A → Call) (l : Logged T)
  : A * Logged T :=
  let '(a, w) := f (inner l) in (a, MkLogged w (calls l ++ [c a])).

Definition logged_ {T} (f : T → T) (c : Call) (l : Logged T) : Logged T :=
  MkLogged (f (inner l)) (calls l ++ [c]).

#[export] Instance Logged_I2C {T} `{!I2C T} : I2C (Logged T) := {|
  I2C.setClock clock := logged_ (I2C.setClock clock) (CSetClock clock);
  I2C.start addr := logged_ (I2C.start addr) (CStart addr);
  I2C.stop := logged_ I2C.stop CStop;
  I2C.write data := logged (I2C.write data) (λ _, CWrite data);
  I2C.write_buf data len :=
    logged (I2C.write_buf data len) (λ _, CWriteBuf data len);
  I2C.requestFrom address length :=
    logged (I2C.requestFrom address length) (λ _, CRequestFrom address length);
  I2C.read := logged I2C.read CRead;
  I2C.available := logged I2C.available CAvailable
|}.

(** The bytes handed over by [read()], in order. *)
Fixpoint reads_of (tr : list Call) : list Z :=
  match tr with
  | [] => []
  | CRead b :: tr' => b :: reads_of tr'
  | _ :: tr' => reads_of tr'
  end.

(** Every [read()] directly follows an [available()] that gave a count other
    than zero. *)
Fixpoint reads_guarded (tr : list Call) : bool :=
  match tr with
  | [] => true
  | CAvailable a :: tr' =>
      match tr' with
      | CRead _ :: tr'' => negb (a =? 0) && reads_guarded tr''
      | _ => reads_guarded tr'
      end
  | CRead _ :: _ => false
  | _ :: tr' => reads_guarded tr'
  end.

(** The calls of the polling loop, against those of a write transaction. *)
Definition is_poll (c : Call) : bool :=
  match c with
  | CRead _ | CAvailable _ => true
  | _ => false
  end.

(** The transaction that asks the device for its next frame. *)
Definition rearm : list Call := [CStart NUNCHUK_ADDRESS; CWrite 0x00; CStop].

#[export] Instance Call_eq_dec : EqDecision Call.
Proof. solve_decision. Defined.

(** The number of places at which [pat] occurs in [tr]. *)
Fixpoint occurrences (pat tr : list Call) : nat :=
  match tr with
  | [] => 0
  | _ :: tr' =>
      (if decide (take (length pat) tr = pat) then 1 else 0)
      + occurrences pat tr'
  end%nat.

(** ** A simulated bus

    A transport for scenarios: the device at [NUNCHUK_ADDRESS] answers a
    request with the first bytes of [device], which land in the receive
    buffer [rx].  As with Wire.h, [available()] is the number of bytes left in
    the buffer and [read()] on an empty buffer gives -1, here as [uint8_t]. *)

Record FakeWire : Type := MkFakeWire {
  device : list Z;
  rx : list Z
}.

#[export] Instance FakeWire_I2C : I2C FakeWire := {|
  I2C.setClock _ w := w;
  I2C.start _ w := w;
  I2C.stop w := w;
  I2C.write _ w := (1, w);
  I2C.write_buf _ len w := (len, w);
  I2C.requestFrom address length w :=
    let got := if address =? NUNCHUK_ADDRESS
               then take (Z.to_nat length) (device w) else [] in
    (Z.of_nat (List.length got), MkFakeWire (device w) got);
  I2C.read w :=
    match rx w with
    | b :: r => (to_u8 b, MkFakeWire (device w) r)
    | [] => (to_u8 (-1), w)
    end;
  I2C.available w := (Z.of_nat (List.length (rx w)), w)
|}.

(** The bus before any request, with the bytes the device will send. *)
Definition fake_bus (bytes : list Z) : FakeWire := MkFakeWire bytes [].

(** A transport that never runs dry: [available()] reports [claim] bytes for
    ever, and [read()] gives the bytes [next], [next + 1], ... *)
Record Babbler : Type := MkBabbler {
  claim : Z;
  next : Z
}.

#[export] Instance Babbler_I2C : I2C Babbler := {|
  I2C.setClock _ w := w;
  I2C.start _ w := w;
  I2C.stop w := w;
  I2C.write _ w := (1, w);
  I2C.write_buf _ len w := (len, w);
  I2C.requestFrom _ length w := (length, w);
  I2C.read w := (to_u8 (next w), MkBabbler (claim w) (next w + 1));
  I2C.available w := (claim w, w)
|}.

Definition zero_frame : Frame := vreplicate _ 0.

(** The driver with its transport under observation, no call made yet. *)
Definition observe {T} (w : T) (d : Frame) : Nunchuk (Logged T) :=
  MkNunchuk (MkLogged w []) d.

(** The calls of a polling loop that obtained the bytes [bs] after the
    counts [avs]. *)
Fixpoint poll_calls (avs bs : list Z) : list Call :=
  match avs, bs with
  | a :: avs', b :: bs' => CAvailable a :: CRead b :: poll_calls avs' bs'
  | _, _ => []
  end.

(** The call that ends the loop early: none when the frame is complete. *)
Definition last_poll (got : nat) : list Call :=
  if decide (got < 6)%nat then [CAvailable 0] else [].

(** What a run of the loop from index [j] does to the frame [d]: it obtains
    the bytes [bs] after the counts [avs], none of them zero, and leaves the
    frame as [d']. *)
Record loop_run (cfg : Config) (j : nat) (d : Frame)
    (avs bs : list Z) (d' : Frame) : Prop := {
  run_counts : length avs = length bs;
  run_nonzero : Forall (λ a, a ≠ 0) avs;
  run_bound : (j + length bs ≤ 6)%nat;
  run_frame :
    vec_to_list d' =
      take j (vec_to_list d) ++ (decodeByte cfg <$> bs)
      ++ drop (j + length bs) (vec_to_list d)
}.

(** ** The Wire.h transport

    [WireI2C] hands every call to the object [Wire] of Wire.h.  That object
    belongs to the Arduino core, not to this library: its class is a
    parameter here, with the result types of Wire.h ([read()] and
    [available()] give an [int], [write] a [size_t], the others a
    [uint8_t]). *)

Module Wire.

Class TwoWire (W : Type) : Type := {
  setClock : Z → W → W;
  beginTransmission : Z → W → W;
  endTransmission : bool → W → Z * W;
  write : Z → W → Z * W;
  write_buf : list Z → Z → W → Z * W;
  requestFrom : Z → Z → W → Z * W;
  read : W → Z * W;
  available : W → Z * W
}.

End Wire.

Export Wire (TwoWire).

Definition to_i32 (z : Z) : Z := (z + 2147483648) mod 4294967296 - 2147483648.
Definition to_u32 (z : Z) : Z := z mod 4294967296.

(** A [WireI2C] has no member of its own: its state is that of [Wire]. *)
Record WireI2C (W : Type) : Type := MkWireI2C {
  the_Wire : W
}.
Arguments MkWireI2C {W} _.
Arguments the_Wire {W} _.

(** The member functions of [WireI2C], with the conversions to their
    parameter and result types: [const int32_t clock] goes to the
    [uint32_t] of [Wire.setClock], and the [int] of [Wire.read()] to the
    [uint8_t] of [read()]. *)
#[export] Instance WireI2C_I2C {W} `{!TwoWire W} : I2C (WireI2C W) := {|
  I2C.setClock clock w :=
    MkWireI2C (Wire.setClock (to_u32 (to_i32 clock)) (the_Wire w));
  I2C.start addr w :=
    MkWireI2C (Wire.beginTransmission (to_u8 addr) (the_Wire w));
  I2C.stop w := MkWireI2C (snd (Wire.endTransmission true (the_Wire w)));
  I2C.write data w :=
    let '(r, w') := Wire.write (to_u8 data) (the_Wire w) in (r, MkWireI2C w');
  I2C.write_buf data len w :=
    let '(r, w') := Wire.write_buf data len (the_Wire w) in (r, MkWireI2C w');
  I2C.requestFrom address length w :=
    let '(r, w') := Wire.requestFrom (to_u8 address) (to_u8 length) (the_Wire w)
    in (r, MkWireI2C w');
  I2C.read w :=
    let '(r, w') := Wire.read (the_Wire w) in (to_u8 r, MkWireI2C w');
  I2C.available w :=
    let '(r, w') := Wire.available (the_Wire w) in (r, MkWireI2C w')
|}.

(** A [Wire] for scenarios: the state is its receive buffer, [read()] takes
    the next byte or gives -1 when there is none, as Wire.h does. *)
#[export] Instance buffer_TwoWire : TwoWire (list Z) := {|
  Wire.setClock _ w := w;
  Wire.beginTransmission _ w := w;
  Wire.endTransmission _ w := (0, w);
  Wire.write _ w := (1, w);
  Wire.write_buf _ len w := (len, w);
  Wire.requestFrom _ length w := (Z.min length (Z.of_nat (List.length w)), w);
  Wire.read w :=
    match w with
    | b :: r => (b, r)
    | [] => (-1, w)
    end;
  Wire.available w := (Z.of_nat (List.length w), w)
|}.

(** ** What a transport hands to a poller

    The counts, the bytes and the last state of a transport that is asked
    at most [k] times whether it has a byte, and for the byte when it has:
    the polling of [read()], without the frame. *)
Fixpoint polled {T} `{!I2C T} (k : nat) (w : T) : list Z * list Z * T :=
  match k with
  | O => ([], [], w)
  | S k' =>
      let '(a, w1) := I2C.available w in
      if bool_of_int a then
        let '(b, w2) := I2C.read w1 in
        let '(avs, bs, w') := polled k' w2 in
        (a :: avs, b :: bs, w')
      else ([], [], w1)
  end.

(** The counts given by [available()], in order. *)
Fixpoint availables_of (tr : list Call) : list Z :=
  match tr with
  | [] => []
  | CAvailable a :: tr' => a :: availables_of tr'
  | _ :: tr' => availables_of tr'
  end.

(** One turn of the loop of [init()]: the count that [available()] gave and
    the byte that was read, if one was.  Its calls, what it prints, and
    whether the byte was read exactly for a count other than zero. *)
Definition probe_calls (p : Z * option Z) : list Call :=
  match p.2 with
  | Some b => [CAvailable p.1; CRead b]
  | None => [CAvailable p.1]
  end.

Definition probe_out (p : Z * option Z) : list Out :=
  match p.2 with
  | Some b => [PrintHex b; PrintStr " "%string]
  | None => []
  end.

Definition probe_ok (p : Z * option Z) : bool :=
  match p.2 with
  | Some _ => negb (p.1 =? 0)
  | None => p.1 =? 0
  end.

(** The write transactions that open [init()], after the clock is set. *)
Definition handshake_calls (cfg : Config) : list Call :=
  if NUNCHUK_DISABLE_ENCRYPTION cfg then
    [CStart 0x52; CWrite 0xF0; CWrite 0x55; CStop;
     CStart 0x52; CWrite 0xFB; CWrite 0x00; CStop]
  else
    [CStart 0x52; CWrite 0x40; CWrite 0x00; CStop].

(** * Proofs *)

(** ** Integer conversions *)

Lemma to_u8_small z : 0 <= z < 256 → to_u8 z = z.
Proof. intros H. unfold to_u8. apply Z.mod_small, H. Qed.

Lemma to_u16_small z : 0 <= z < 65536 → to_u16 z = z.
Proof. intros H. unfold to_u16. apply Z.mod_small, H. Qed.

Lemma to_i16_small z : -32768 <= z < 32768 → to_i16 z = z.
Proof. intros H. unfold to_i16. rewrite Z.mod_small; lia. Qed.

Lemma to_i8_small z : -128 <= z < 128 → to_i8 z = z.
Proof. intros H. unfold to_i8. rewrite Z.mod_small; lia. Qed.

Lemma bool_of_int_true a : bool_of_int a = true ↔ a ≠ 0.
Proof. unfold bool_of_int. destruct (Z.eqb_spec a 0); simpl; split; congruence. Qed.

Lemma bool_of_int_false a : bool_of_int a = false ↔ a = 0.
Proof. unfold bool_of_int. destruct (Z.eqb_spec a 0); simpl; split; congruence. Qed.

(** ** The array store *)

Lemma store_in_range (j : nat) v (d : Frame) :
  (j < 6)%nat →
  ∃ d', store (Z.of_nat j) v d = Some d'
        ∧ vec_to_list d' = <[j := v]> (vec_to_list d).
Proof.
  intros Hj. unfold store.
  destruct (decide (0 <= Z.of_nat j)) as [_ | Hneg]; [| lia].
  destruct (decide (Z.to_nat (Z.of_nat j) < 6)%nat)
    as [Hlt | Hge]; [| lia].
  eexists; split; [reflexivity |].
  rewrite vec_to_list_insert, fin_to_nat_to_fin, Nat2Z.id. reflexivity.
Qed.

Lemma store_out_of_range i v (d : Frame) :
  ¬ (0 <= i < NUNCHUK_MESSAGE_SIZE) → store i v d = None.
Proof.
  intros Hi. unfold store. destruct (decide (0 <= i)); [| reflexivity].
  destruct (decide _) as [Hlt | _]; [| reflexivity].
  unfold NUNCHUK_MESSAGE_SIZE in *. lia.
Qed.

Lemma store_defined i v (d : Frame) :
  is_Some (store i v d) ↔ 0 <= i < 6.
Proof.
  split.
  - intros [d' Hst]. destruct (decide (0 <= i < 6)) as [Hi | Hi]; [exact Hi |].
    rewrite (store_out_of_range i v d Hi) in Hst. discriminate.
  - intros Hi.
    destruct (store_in_range (Z.to_nat i) v d) as (d' & Hst & _); [lia |].
    rewrite Z2Nat.id in Hst by lia. rewrite Hst. eexists; reflexivity.
Qed.

(** ** One turn of the loop *)

Section Loop.

Context {T : Type} `{!I2C T}.
Variable cfg : Config.

Lemma read_loop_exit i (n : Nunchuk T) :
  ¬ i < NUNCHUK_MESSAGE_SIZE → Nunchuk.read_loop cfg i n = Some (i, n).
Proof.
  intros Hi. rewrite Nunchuk.read_loop_equation_1.
  destruct (Z_lt_dec i NUNCHUK_MESSAGE_SIZE); [contradiction | reflexivity].
Qed.

Lemma read_loop_stop i (n n1 : Nunchuk T) :
  i < NUNCHUK_MESSAGE_SIZE →
  wire I2C.available n = Some (0, n1) →
  Nunchuk.read_loop cfg i n = Some (i, n1).
Proof.
  intros Hi Hav. rewrite Nunchuk.read_loop_equation_1.
  destruct (Z_lt_dec i NUNCHUK_MESSAGE_SIZE); [| contradiction].
  simpl. rewrite Hav. reflexivity.
Qed.

Lemma read_loop_step i a (n n1 : Nunchuk T) :
  i < NUNCHUK_MESSAGE_SIZE →
  wire I2C.available n = Some (a, n1) →
  a ≠ 0 →
  Nunchuk.read_loop cfg i n =
    match Nunchuk.read_body cfg i n1 with
    | Some (_, n2) => Nunchuk.read_loop cfg (to_u8 (i + 1)) n2
    | None => None
    end.
Proof.
  intros Hi Hav Ha. rewrite Nunchuk.read_loop_equation_1.
  destruct (Z_lt_dec i NUNCHUK_MESSAGE_SIZE); [| contradiction].
  simpl. rewrite Hav. simpl.
  apply bool_of_int_true in Ha. rewrite Ha. simpl.
  destruct (Nunchuk.read_body cfg i n1) as [[[] n2] |]; reflexivity.
Qed.

End Loop.

(** ** The whole loop *)

Section Run.

Context {T : Type} `{!I2C T}.
Variable cfg : Config.

Lemma read_loop_run (k j : nat) (w : T) (tr : list Call) (d : Frame) :
  (j + k = 6)%nat →
  ∃ avs bs w' d',
    loop_run cfg j d avs bs d'
    ∧ Nunchuk.read_loop cfg (Z.of_nat j) (MkNunchuk (MkLogged w tr) d)
      = Some (Z.of_nat (j + length bs),
              MkNunchuk
                (MkLogged w' (tr ++ poll_calls avs bs
                                 ++ last_poll (j + length bs))) d')
    ∧ Nunchuk.read_loop cfg (Z.of_nat j) (MkNunchuk w d)
      = Some (Z.of_nat (j + length bs), MkNunchuk w' d').
Proof.
  revert j w tr d. induction k as [| k IH]; intros j w tr d Hjk.
  - (* the index has reached the size *)
    exists [], [], w, d. rewrite Nat.add_0_r in *.
    assert (Hnot : ¬ Z.of_nat j < NUNCHUK_MESSAGE_SIZE)
      by (unfold NUNCHUK_MESSAGE_SIZE in *; lia).
    split; [| split].
    + constructor; simpl; [done | constructor | lia |].
      rewrite Nat.add_0_r. symmetry. apply take_drop.
    + rewrite read_loop_exit by assumption.
      unfold last_poll. rewrite decide_False by lia.
      simpl. rewrite app_nil_r. reflexivity.
    + rewrite read_loop_exit by assumption. reflexivity.
  - assert (Hlt : Z.of_nat j < NUNCHUK_MESSAGE_SIZE)
      by (unfold NUNCHUK_MESSAGE_SIZE in *; lia).
    destruct (I2C.available w) as [a w1] eqn:Hav.
    assert (Hlog : wire I2C.available (MkNunchuk (MkLogged w tr) d)
                   = Some (a, MkNunchuk (MkLogged w1 (tr ++ [CAvailable a])) d)).
    { unfold wire. simpl. unfold logged. simpl. rewrite Hav. reflexivity. }
    assert (Hbare : wire I2C.available (MkNunchuk w d)
                    = Some (a, MkNunchuk w1 d)).
    { unfold wire. simpl. rewrite Hav. reflexivity. }
    destruct (decide (a = 0)) as [-> | Ha].
    + (* nothing left: the loop ends *)
      exists [], [], w1, d. split; [| split].
      * constructor; simpl; [done | constructor | lia |].
        rewrite Nat.add_0_r. symmetry. apply take_drop.
      * rewrite (read_loop_stop cfg _ _ _ Hlt Hlog).
        rewrite Nat.add_0_r. unfold last_poll.
        rewrite decide_True by lia. reflexivity.
      * rewrite (read_loop_stop cfg _ _ _ Hlt Hbare).
        rewrite Nat.add_0_r. reflexivity.
    + (* one byte is read and stored at [j] *)
      destruct (I2C.read w1) as [b w2] eqn:Hrd.
      destruct (store_in_range j (decodeByte cfg b) d) as (d1 & Hst & Hd1);
        [lia |].
      assert (Hnext : to_u8 (Z.of_nat j + 1) = Z.of_nat (S j)).
      { rewrite to_u8_small; unfold NUNCHUK_MESSAGE_SIZE in *; lia. }
      destruct (IH (S j) w2 ((tr ++ [CAvailable a]) ++ [CRead b]) d1)
        as (avs & bs & w' & d' & Hrun & Hl & Hb); [lia |].
      exists (a :: avs), (b :: bs), w', d'. split; [| split].
      * destruct Hrun as [Hc Hnz Hbd Hfr]. constructor; simpl.
        -- congruence.
        -- constructor; assumption.
        -- lia.
        -- rewrite Hfr, Hd1.
           assert (Hlen : (j < length (vec_to_list d))%nat)
             by (rewrite length_vec_to_list; lia).
           rewrite (take_S_r _ _ (decodeByte cfg b))
             by (apply list_lookup_insert_eq; exact Hlen).
           rewrite take_insert_ge by lia.
           rewrite drop_insert_lt by lia.
           replace (S j + length bs)%nat with (j + S (length bs))%nat by lia.
           rewrite <- app_assoc. reflexivity.
      * rewrite (read_loop_step cfg _ _ _ _ Hlt Hlog Ha).
        unfold Nunchuk.read_body, bind, wire, set_data. simpl.
        unfold logged. simpl. rewrite Hrd. simpl. rewrite Hst.
        rewrite Hnext, Hl. simpl.
        replace (S (j + length bs)) with (j + S (length bs))%nat by lia.
        rewrite <- !app_assoc. reflexivity.
      * rewrite (read_loop_step cfg _ _ _ _ Hlt Hbare Ha).
        unfold Nunchuk.read_body, bind, wire, set_data. simpl.
        rewrite Hrd. simpl. rewrite Hst.
        rewrite Hnext, Hb. simpl.
        replace (S (j + length bs)) with (j + S (length bs))%nat by lia.
        reflexivity.
Qed.

End Run.

(** ** Traces of the polling loop *)

Lemma reads_of_app tr1 tr2 : reads_of (tr1 ++ tr2) = reads_of tr1 ++ reads_of tr2.
Proof.
  induction tr1 as [| c tr1 IH]; [reflexivity |].
  destruct c; simpl; rewrite IH; reflexivity.
Qed.

Lemma reads_of_poll_calls avs bs :
  length avs = length bs → reads_of (poll_calls avs bs) = bs.
Proof.
  revert bs. induction avs as [| a avs IH]; intros [| b bs] Hlen;
    simpl in *; try congruence.
  f_equal. apply IH. congruence.
Qed.

Lemma reads_of_last_poll k : reads_of (last_poll k) = [].
Proof. unfold last_poll. case_decide; reflexivity. Qed.

Lemma is_poll_poll_calls avs bs : forallb is_poll (poll_calls avs bs) = true.
Proof.
  revert bs. induction avs as [| a avs IH]; intros [| b bs]; simpl; auto.
Qed.

Lemma is_poll_last_poll k : forallb is_poll (last_poll k) = true.
Proof. unfold last_poll. case_decide; reflexivity. Qed.

Lemma reads_guarded_poll_calls avs bs tl :
  Forall (λ a, a ≠ 0) avs →
  reads_guarded tl = true →
  reads_guarded (poll_calls avs bs ++ tl) = true.
Proof.
  intros Hnz Htl. revert bs.
  induction Hnz as [| a avs Ha _ IH]; intros [| b bs]; simpl; auto.
  rewrite IH. destruct (Z.eqb_spec a 0); [contradiction | reflexivity].
Qed.

Lemma reads_guarded_last_poll k : reads_guarded (last_poll k ++ rearm) = true.
Proof. unfold last_poll. case_decide; reflexivity. Qed.

Lemma occurrences_rearm_poll poll :
  forallb is_poll poll = true → occurrences rearm (poll ++ rearm) = 1%nat.
Proof.
  induction poll as [| c poll IH]; intros Hp; [reflexivity |].
  simpl in Hp. apply andb_true_iff in Hp as [Hc Hp].
  change (occurrences rearm ((c :: poll) ++ rearm))
    with ((if decide (take (length rearm) ((c :: poll) ++ rearm) = rearm)
           then 1 else 0) + occurrences rearm (poll ++ rearm))%nat.
  rewrite (IH Hp), decide_False; [reflexivity |].
  destruct c; simpl in Hc; try discriminate; simpl; intros [=].
Qed.

(** ** A whole call of [read()] *)

Section Read.

Context {T : Type} `{!I2C T}.
Variable cfg : Config.

Lemma read_run (w : T) (d : Frame) :
  ∃ avs bs w' d',
    loop_run cfg 0 d avs bs d'
    ∧ Nunchuk.read cfg (observe w d)
      = Some (Z.of_nat (length bs) =? 6,
              MkNunchuk
                (MkLogged w'
                   (CRequestFrom NUNCHUK_ADDRESS NUNCHUK_MESSAGE_SIZE
                      :: (poll_calls avs bs ++ last_poll (length bs))
                      ++ rearm)) d')
    ∧ Nunchuk.read cfg (MkNunchuk w d)
      = Some (Z.of_nat (length bs) =? 6, MkNunchuk w' d').
Proof.
  destruct (I2C.requestFrom NUNCHUK_ADDRESS NUNCHUK_MESSAGE_SIZE w)
    as [r w0] eqn:Hreq.
  destruct (read_loop_run cfg 6 0 w0
              [CRequestFrom NUNCHUK_ADDRESS NUNCHUK_MESSAGE_SIZE] d)
    as (avs & bs & w1 & d' & Hrun & Hl & Hb); [reflexivity |].
  destruct (I2C.write 0 (I2C.start NUNCHUK_ADDRESS w1)) as [r' w2] eqn:Hwr.
  exists avs, bs, (I2C.stop w2), d'. split; [exact Hrun |].
  change (Z.of_nat 0) with 0 in Hl, Hb. simpl in Hl, Hb. split.
  - unfold Nunchuk.read, observe, bind, wire, wire_, ret. simpl.
    unfold logged. simpl. rewrite Hreq. simpl in *. rewrite Hl. simpl.
    unfold logged_, logged. simpl. rewrite Hwr. simpl.
    rewrite <- !app_assoc. reflexivity.
  - unfold Nunchuk.read, bind, wire, wire_, ret. simpl.
    rewrite Hreq. simpl in *. rewrite Hb. simpl. rewrite Hwr. reflexivity.
Qed.

End Read.

(** ** Bytes and bits *)

(** A property of a byte can be checked on the 256 bytes. *)
Lemma u8_forall (P : Z → bool) :
  forallb P (Z.of_nat <$> seq 0 256) = true → ∀ b, is_u8 b → P b = true.
Proof.
  intros Hall b [Hlo Hhi]. rewrite forallb_forall in Hall. apply Hall.
  apply in_map_iff. exists (Z.to_nat b). split; [lia |].
  apply in_seq. lia.
Qed.

(** [x & 1], read as a [bool], is bit 0 of [x]. *)
Lemma bool_of_int_land_1 x : bool_of_int (Z.land x 1) = Z.testbit x 0.
Proof.
  change 1 with (Z.ones 1). rewrite Z.land_ones by lia.
  change (2 ^ 1) with 2. rewrite <- Z.bit0_mod.
  destruct (Z.testbit x 0); reflexivity.
Qed.

Lemma lor_bound a b hi :
  0 <= a → 0 <= b → a + b <= hi → 0 <= Z.lor a b <= hi.
Proof.
  intros Ha Hb Hhi.
  pose proof (Z.add_lor_land a b) as Hsum.
  assert (0 <= Z.land a b) by (apply Z.land_nonneg; lia).
  assert (0 <= Z.lor a b) by (apply Z.lor_nonneg; lia).
  lia.
Qed.

(** The packing of a ten bit acceleration: no conversion of the expression
    loses a bit. *)
Lemma accel_raw_spec c f s :
  is_u8 c → is_u8 f → 0 <= s →
  Nunchuk.accel_raw c f s = Z.lor (Z.shiftl c 2) (Z.land (Z.shiftr f s) 3)
  ∧ 0 <= Nunchuk.accel_raw c f s <= 1023.
Proof.
  unfold is_u8. intros Hc Hf Hs.
  assert (Hhi : 0 <= Z.shiftl c 2 <= 1020)
    by (rewrite Z.shiftl_mul_pow2 by lia; change (2 ^ 2) with 4; lia).
  assert (Hsh : 0 <= Z.shiftr f s <= 255).
  { rewrite Z.shiftr_div_pow2 by lia.
    assert (Hp : 0 < 2 ^ s) by (apply Z.pow_pos_nonneg; lia).
    generalize dependent (2 ^ s). intros p Hp.
    split; [apply Z.div_pos; lia |].
    apply Z.div_le_upper_bound; [exact Hp | nia]. }
  assert (Hlo : 0 <= Z.land (Z.shiftr f s) 3 <= 3).
  { change 3 with (Z.ones 2) at 1 2. rewrite Z.land_ones by lia.
    change (2 ^ 2) with 4. pose proof (Z.mod_pos_bound (Z.shiftr f s) 4). lia. }
  pose proof (lor_bound (Z.shiftl c 2) (Z.land (Z.shiftr f s) 3) 1023) as Hor.
  unfold Nunchuk.accel_raw, to_uint, to_int.
  rewrite (to_u16_small c) by lia.
  rewrite (to_u16_small (Z.shiftl c 2)) by lia.
  rewrite (to_i16_small (Z.shiftr f s)) by lia.
  rewrite (to_i16_small (Z.land _ 3)) by lia.
  rewrite (to_u16_small (Z.land _ 3)) by lia.
  rewrite !(to_u16_small (Z.lor _ _)) by lia.
  split; [reflexivity | lia].
Qed.

Lemma accel_centered raw :
  0 <= raw <= 1023 →
  to_i16 (to_int (to_i16 raw - to_i16 512)) = raw - 512.
Proof.
  intros Hraw. unfold to_int.
  rewrite (to_i16_small raw), (to_i16_small 512) by lia.
  rewrite !(to_i16_small (raw - 512)) by lia. reflexivity.
Qed.

(** * The accessors *)

(** C3: for every value of frame byte 5, [getButtonZ()] is the inverse of
    bit 0 of the byte and [getButtonC()] the inverse of bit 1: with [==]
    binding tighter than [&], each expression still tests one bit of the
    complement. *)
Theorem buttons_inverted {T} (n : Nunchuk T) :
  is_u8 (m_NunchukData n !!! 5%fin) →
  Nunchuk.getButtonZ n = negb (Z.testbit (m_NunchukData n !!! 5%fin) 0)
  ∧ Nunchuk.getButtonC n = negb (Z.testbit (m_NunchukData n !!! 5%fin) 1).
Proof.
  unfold Nunchuk.getButtonZ, Nunchuk.getButtonC, is_u8.
  generalize (m_NunchukData n !!! 5%fin). intros x Hx.
  assert (Hnot : -256 <= Z.lnot x <= -1) by (unfold Z.lnot; lia).
  change (int_of_bool (1 =? 1)) with 1. unfold to_int.
  rewrite (to_i16_small (Z.lnot x)) by lia. split.
  - rewrite Z.shiftr_0_r, to_i16_small by lia.
    rewrite bool_of_int_land_1. apply Z.lnot_spec. lia.
  - assert (Hsh : -128 <= Z.shiftr (Z.lnot x) 1 <= -1).
    { rewrite Z.shiftr_div_pow2 by lia. change (2 ^ 1) with 2.
      pose proof (Z.div_mod (Z.lnot x) 2 ltac:(lia)).
      pose proof (Z.mod_pos_bound (Z.lnot x) 2 ltac:(lia)). lia. }
    rewrite to_i16_small by lia.
    rewrite bool_of_int_land_1, Z.shiftr_spec by lia.
    apply Z.lnot_spec. lia.
Qed.

(** The two frames of the example: byte 5 all zero gives both buttons
    pressed, bits 0 and 1 set gives none. *)
Lemma buttons_inverted_witness :
  (Nunchuk.getButtonZ (MkNunchuk tt [# 0; 0; 0; 0; 0; 0x00]) = true
   ∧ Nunchuk.getButtonC (MkNunchuk tt [# 0; 0; 0; 0; 0; 0x00]) = true)
  ∧ (Nunchuk.getButtonZ (MkNunchuk tt [# 0; 0; 0; 0; 0; 0x03]) = false
     ∧ Nunchuk.getButtonC (MkNunchuk tt [# 0; 0; 0; 0; 0; 0x03]) = false).
Proof.
  split.
  - apply (buttons_inverted (MkNunchuk tt [# 0; 0; 0; 0; 0; 0])).
    unfold is_u8. simpl. lia.
  - apply (buttons_inverted (MkNunchuk tt [# 0; 0; 0; 0; 0; 3])).
    unfold is_u8. simpl. lia.
Defined.

(** C4: for every frame, the raw acceleration X is
    [(buffer[2] << 2) | ((buffer[5] >> 2) & 0x3)] and lies in [0,1023], Y and Z
    take bits 4-5 and 6-7 of byte 5 in the same way, and [getAccelX()] (and
    Y, Z) is the raw value minus 512, which fits a signed 16 bit result. *)
Theorem accel_unpacked {T} (n : Nunchuk T) :
  frame_ok (m_NunchukData n) →
  let d := m_NunchukData n in
  (Nunchuk.getAccelRawX n
     = Z.lor (Z.shiftl (d !!! 2%fin) 2) (Z.land (Z.shiftr (d !!! 5%fin) 2) 0x3)
   ∧ 0 <= Nunchuk.getAccelRawX n <= 1023
   ∧ Nunchuk.getAccelX n = Nunchuk.getAccelRawX n - 512
   ∧ -32768 <= Nunchuk.getAccelX n <= 32767)
  ∧ (Nunchuk.getAccelRawY n
       = Z.lor (Z.shiftl (d !!! 3%fin) 2) (Z.land (Z.shiftr (d !!! 5%fin) 4) 0x3)
     ∧ 0 <= Nunchuk.getAccelRawY n <= 1023
     ∧ Nunchuk.getAccelY n = Nunchuk.getAccelRawY n - 512
     ∧ -32768 <= Nunchuk.getAccelY n <= 32767)
  ∧ (Nunchuk.getAccelRawZ n
       = Z.lor (Z.shiftl (d !!! 4%fin) 2) (Z.land (Z.shiftr (d !!! 5%fin) 6) 0x3)
     ∧ 0 <= Nunchuk.getAccelRawZ n <= 1023
     ∧ Nunchuk.getAccelZ n = Nunchuk.getAccelRawZ n - 512
     ∧ -32768 <= Nunchuk.getAccelZ n <= 32767).
Proof.
  intros Hok d.
  assert (Haxis : ∀ k s, 0 <= s →
    let raw := Nunchuk.accel_raw (d !!! k) (d !!! 5%fin) s in
    raw = Z.lor (Z.shiftl (d !!! k) 2) (Z.land (Z.shiftr (d !!! 5%fin) s) 3)
    ∧ 0 <= raw <= 1023
    ∧ to_i16 (to_int (to_i16 raw - to_i16 512)) = raw - 512
    ∧ -32768 <= to_i16 (to_int (to_i16 raw - to_i16 512)) <= 32767).
  { intros k s Hs raw.
    destruct (accel_raw_spec (d !!! k) (d !!! 5%fin) s (Hok k) (Hok _) Hs)
      as [Heq Hrange].
    fold raw in Heq, Hrange.
    rewrite (accel_centered raw Hrange). repeat split; [exact Heq | lia ..]. }
  split; [| split].
  - exact (Haxis 2%fin 2 ltac:(lia)).
  - exact (Haxis 3%fin 4 ltac:(lia)).
  - exact (Haxis 4%fin 6 ltac:(lia)).
Qed.

(** The example: [buffer[2] = 0x80] and [buffer[5] = 0b00001100] give the raw
    value 515 and the calibrated value 3. *)
Lemma accel_unpacked_witness :
  Nunchuk.getAccelRawX (MkNunchuk tt [# 0; 0; 0x80; 0; 0; 0x0C]) = 515
  ∧ Nunchuk.getAccelX (MkNunchuk tt [# 0; 0; 0x80; 0; 0; 0x0C]) = 3.
Proof.
  assert (Hok : frame_ok [# 0; 0; 0x80; 0; 0; 0x0C]).
  { intros i. unfold is_u8.
    repeat (inv_fin i; [simpl; lia | intros i]). inv_fin i. }
  destruct (accel_unpacked (MkNunchuk tt [# 0; 0; 0x80; 0; 0; 0x0C]) Hok)
    as ((Hraw & _ & Hcal & _) & _).
  split; [exact Hraw |].
  rewrite Hcal, Hraw. reflexivity.
Defined.

(** C5: for every raw joystick byte, [getJoystickX()] is the byte minus 128
    and so is [getJoystickY()] for its byte: the conversion to [int8_t] never
    wraps. *)
Theorem joystick_centered {T} (n : Nunchuk T) :
  is_u8 (m_NunchukData n !!! 0%fin) →
  is_u8 (m_NunchukData n !!! 1%fin) →
  Nunchuk.getJoystickX n = m_NunchukData n !!! 0%fin - 128
  ∧ Nunchuk.getJoystickY n = m_NunchukData n !!! 1%fin - 128
  ∧ -128 <= Nunchuk.getJoystickX n <= 127
  ∧ -128 <= Nunchuk.getJoystickY n <= 127.
Proof.
  unfold Nunchuk.getJoystickX, Nunchuk.getJoystickY,
    Nunchuk.getJoystickRawX, Nunchuk.getJoystickRawY,
    NUNCHUK_JOYSTICK_X_ZERO, NUNCHUK_JOYSTICK_Y_ZERO, to_int, is_u8.
  set (x := m_NunchukData n !!! 0%fin). set (y := m_NunchukData n !!! 1%fin).
  clearbody x y. intros Hx Hy.
  rewrite (to_i16_small x), (to_i16_small y) by lia.
  rewrite (to_i16_small (x - 128)), (to_i16_small (y - 128)) by lia.
  rewrite (to_i8_small (x - 128)), (to_i8_small (y - 128)) by lia.
  lia.
Qed.

(** The examples: raw 128 gives 0, raw 0 gives -128 and raw 255 gives 127, on
    both axes. *)
Lemma joystick_centered_witness :
  (Nunchuk.getJoystickX (MkNunchuk tt [# 128; 128; 0; 0; 0; 0]) = 0
   ∧ Nunchuk.getJoystickY (MkNunchuk tt [# 128; 128; 0; 0; 0; 0]) = 0)
  ∧ (Nunchuk.getJoystickX (MkNunchuk tt [# 0; 0; 0; 0; 0; 0]) = -128
     ∧ Nunchuk.getJoystickY (MkNunchuk tt [# 0; 0; 0; 0; 0; 0]) = -128)
  ∧ (Nunchuk.getJoystickX (MkNunchuk tt [# 255; 255; 0; 0; 0; 0]) = 127
     ∧ Nunchuk.getJoystickY (MkNunchuk tt [# 255; 255; 0; 0; 0; 0]) = 127).
Proof.
  split; [| split].
  - destruct (joystick_centered (MkNunchuk tt [# 128; 128; 0; 0; 0; 0]))
      as (Hx & Hy & _); [unfold is_u8; simpl; lia .. |].
    split; [exact Hx | exact Hy].
  - destruct (joystick_centered (MkNunchuk tt [# 0; 0; 0; 0; 0; 0]))
      as (Hx & Hy & _); [unfold is_u8; simpl; lia .. |].
    split; [exact Hx | exact Hy].
  - destruct (joystick_centered (MkNunchuk tt [# 255; 255; 0; 0; 0; 0]))
      as (Hx & Hy & _); [unfold is_u8; simpl; lia .. |].
    split; [exact Hx | exact Hy].
Defined.

(** * [decodeByte] *)

(** C6: with the encryption in use, [decodeByte(b)] is
    [((b ^ 0x17) + 0x17) mod 256] for every byte [b]. *)
Theorem decodeByte_obfuscated (b : Z) :
  is_u8 b →
  decodeByte obfuscated_mode b = (Z.lxor b 0x17 + 0x17) mod 256.
Proof.
  intros Hb. apply Z.eqb_eq.
  revert b Hb.
  apply (u8_forall
           (λ b, decodeByte obfuscated_mode b =? (Z.lxor b 0x17 + 0x17) mod 256)).
  vm_compute. reflexivity.
Qed.

(** A byte for which the sum wraps: [0xE8 ^ 0x17 = 0xFF], and adding [0x17]
    gives [0x16]. *)
Lemma decodeByte_obfuscated_witness : decodeByte obfuscated_mode 0xE8 = 0x16.
Proof.
  apply (decodeByte_obfuscated 0xE8). unfold is_u8. lia.
Defined.

(** C7: with the encryption disabled, [decodeByte] gives back its byte. *)
Theorem decodeByte_plain (b : Z) :
  is_u8 b → decodeByte plain_mode b = b.
Proof. intros _. reflexivity. Qed.

Lemma decodeByte_plain_witness : decodeByte plain_mode 0xE8 = 0xE8.
Proof.
  apply (decodeByte_plain 0xE8). unfold is_u8. lia.
Defined.

(** * [read()] *)

Lemma reads_of_read_trace a l avs bs k :
  length avs = length bs →
  reads_of (CRequestFrom a l :: (poll_calls avs bs ++ last_poll k) ++ rearm) = bs.
Proof.
  intros Hlen. simpl. rewrite !reads_of_app, reads_of_poll_calls by exact Hlen.
  rewrite reads_of_last_poll. simpl. rewrite !app_nil_r. reflexivity.
Qed.

Lemma is_poll_loop avs bs k :
  forallb is_poll (poll_calls avs bs ++ last_poll k) = true.
Proof.
  rewrite forallb_app, is_poll_poll_calls, is_poll_last_poll. reflexivity.
Qed.

Lemma occurrences_read_trace a l poll :
  forallb is_poll poll = true →
  occurrences rearm (CRequestFrom a l :: poll ++ rearm) = 1%nat.
Proof.
  intros Hp.
  change (occurrences rearm (CRequestFrom a l :: poll ++ rearm))
    with ((if decide (take (length rearm) (CRequestFrom a l :: poll ++ rearm)
                      = rearm) then 1 else 0)
          + occurrences rearm (poll ++ rearm))%nat.
  rewrite (occurrences_rearm_poll poll Hp), decide_False; [reflexivity |].
  simpl. intros [=].
Qed.

Lemma reads_guarded_read_trace a l avs bs k :
  Forall (λ a, a ≠ 0) avs →
  reads_guarded
    (CRequestFrom a l :: (poll_calls avs bs ++ last_poll k) ++ rearm) = true.
Proof.
  intros Hnz. simpl. rewrite <- app_assoc.
  apply reads_guarded_poll_calls; [exact Hnz |].
  apply reads_guarded_last_poll.
Qed.

(** C1: whatever the transport does, [read()] takes bytes one at a time
    while fewer than six have been taken and [available()] gives a count
    other than zero, stores [decodeByte] of each at the indices 0, 1, ... in
    turn, and returns true exactly when six bytes were obtained, false with
    fewer.  The calls observed are the request, then for each byte obtained
    an [available()] (not zero) and a [read()], then an [available()] that
    gave zero when the loop ended early, then the write that follows. *)
Theorem read_obtains_frame {T} `{!I2C T} (cfg : Config) (w : T) (d : Frame) :
  ∃ (avs bs : list Z) (b : bool) (w' : T) (d' : Frame),
    Nunchuk.read cfg (MkNunchuk w d) = Some (b, MkNunchuk w' d')
    ∧ Nunchuk.read cfg (observe w d)
      = Some (b, MkNunchuk
                   (MkLogged w'
                      (CRequestFrom NUNCHUK_ADDRESS NUNCHUK_MESSAGE_SIZE
                         :: (poll_calls avs bs ++ last_poll (length bs))
                         ++ rearm)) d')
    ∧ length avs = length bs
    ∧ Forall (λ a, a ≠ 0) avs
    ∧ (length bs ≤ 6)%nat
    ∧ vec_to_list d'
      = (decodeByte cfg <$> bs) ++ drop (length bs) (vec_to_list d)
    ∧ (b = true ↔ length bs = 6%nat)
    ∧ (b = false ↔ (length bs < 6)%nat).
Proof.
  destruct (read_run cfg w d) as (avs & bs & w' & d' & Hrun & Hobs & Hbare).
  destruct Hrun as [Hc Hnz Hbd Hfr]. simpl in Hbd, Hfr.
  exists avs, bs, (Z.of_nat (length bs) =? 6), w', d'.
  repeat split; try assumption.
  - intros Hb. apply Z.eqb_eq in Hb. lia.
  - intros Hb. apply Z.eqb_eq. lia.
  - intros Hb. apply Z.eqb_neq in Hb. lia.
  - intros Hb. apply Z.eqb_neq. lia.
Qed.

(** ** The polling of [read()], as a function of the transport *)

Section Polled.

Context {T : Type} `{!I2C T}.
Variable cfg : Config.

Lemma polled_length (k : nat) (w : T) :
  length (polled k w).1.1 = length (polled k w).1.2
  ∧ (length (polled k w).1.2 ≤ k)%nat.
Proof.
  revert w. induction k as [| k IH]; intros w; [simpl; lia |].
  simpl. destruct (I2C.available w) as [a w1].
  destruct (bool_of_int a); [| simpl; lia].
  destruct (I2C.read w1) as [b w2].
  specialize (IH w2). destruct (polled k w2) as [[avs bs] w'].
  simpl in *. lia.
Qed.

Lemma polled_bytes (k : nat) (w : T) :
  (∀ w0 : T, is_u8 (I2C.read w0).1) → Forall is_u8 (polled k w).1.2.
Proof.
  intros Hbyte. revert w. induction k as [| k IH]; intros w; [constructor |].
  simpl. destruct (I2C.available w) as [a w1].
  destruct (bool_of_int a); [| constructor].
  pose proof (Hbyte w1) as Hb. destruct (I2C.read w1) as [b w2].
  specialize (IH w2). destruct (polled k w2) as [[avs bs] w'].
  simpl in *. constructor; assumption.
Qed.

Lemma read_loop_polled (k j : nat) (w : T) (d : Frame) :
  (j + k = 6)%nat →
  ∃ d' : Frame,
    Nunchuk.read_loop cfg (Z.of_nat j) (MkNunchuk w d)
    = Some (Z.of_nat (j + length (polled k w).1.2),
            MkNunchuk (polled k w).2 d')
    ∧ vec_to_list d'
      = take j (vec_to_list d) ++ (decodeByte cfg <$> (polled k w).1.2)
        ++ drop (j + length (polled k w).1.2) (vec_to_list d).
Proof.
  revert j w d. induction k as [| k IH]; intros j w d Hjk.
  - exists d. simpl. rewrite Nat.add_0_r. split.
    + apply read_loop_exit. unfold NUNCHUK_MESSAGE_SIZE. lia.
    + symmetry. apply take_drop.
  - assert (Hlt : Z.of_nat j < NUNCHUK_MESSAGE_SIZE)
      by (unfold NUNCHUK_MESSAGE_SIZE; lia).
    simpl. destruct (I2C.available w) as [a w1] eqn:Hav.
    assert (Hwire : wire I2C.available (MkNunchuk w d)
                    = Some (a, MkNunchuk w1 d))
      by (unfold wire; simpl; rewrite Hav; reflexivity).
    destruct (bool_of_int a) eqn:Ha.
    + apply bool_of_int_true in Ha.
      destruct (I2C.read w1) as [b w2] eqn:Hrd.
      destruct (store_in_range j (decodeByte cfg b) d) as (d1 & Hst & Hd1);
        [lia |].
      destruct (IH (S j) w2 d1) as (d' & Hloop & Hfr); [lia |].
      destruct (polled k w2) as [[avs bs] w'] eqn:Hp. simpl in *.
      exists d'. split.
      * rewrite (read_loop_step cfg _ _ _ _ Hlt Hwire Ha).
        unfold Nunchuk.read_body, bind, wire, set_data. simpl.
        rewrite Hrd. simpl. rewrite Hst.
        rewrite to_u8_small by (unfold NUNCHUK_MESSAGE_SIZE in *; lia).
        replace (Z.of_nat j + 1) with (Z.of_nat (S j)) by lia.
        simpl in Hloop. rewrite Hloop.
        replace (S (j + length bs)) with (j + S (length bs))%nat by lia.
        reflexivity.
      * rewrite Hfr, Hd1.
        assert (Hlen : (j < length (vec_to_list d))%nat)
          by (rewrite length_vec_to_list; lia).
        rewrite (take_S_r _ _ (decodeByte cfg b))
          by (apply list_lookup_insert_eq; exact Hlen).
        rewrite take_insert_ge by lia.
        rewrite drop_insert_lt by lia.
        replace (S (j + length bs)) with (j + S (length bs))%nat by lia.
        rewrite <- app_assoc. reflexivity.
    + apply bool_of_int_false in Ha. subst a.
      exists d. simpl. rewrite Nat.add_0_r. split.
      * apply (read_loop_stop cfg _ _ _ Hlt Hwire).
      * symmetry. apply take_drop.
Qed.

(** A whole [read()]: the result, the transport and the frame it leaves. *)
Lemma read_polled (w : T) (d : Frame) :
  let p := polled 6 (I2C.requestFrom NUNCHUK_ADDRESS NUNCHUK_MESSAGE_SIZE w).2 in
  ∃ d' : Frame,
    Nunchuk.read cfg (MkNunchuk w d)
    = Some (Z.of_nat (length p.1.2) =? 6,
            MkNunchuk
              (I2C.stop (I2C.write 0 (I2C.start NUNCHUK_ADDRESS p.2)).2) d')
    ∧ vec_to_list d'
      = (decodeByte cfg <$> p.1.2) ++ drop (length p.1.2) (vec_to_list d).
Proof.
  intros p. subst p.
  destruct (I2C.requestFrom NUNCHUK_ADDRESS NUNCHUK_MESSAGE_SIZE w)
    as [r w0] eqn:Hreq.
  destruct (read_loop_polled 6 0 w0 d) as (d' & Hloop & Hfr); [reflexivity |].
  cbn [snd]. generalize dependent (polled 6 w0). intros p Hloop Hfr.
  change (Z.of_nat 0) with 0 in Hloop. simpl in Hloop, Hfr.
  exists d'. split; [| exact Hfr].
  unfold Nunchuk.read, bind, wire, wire_, ret. simpl.
  rewrite Hreq. simpl. rewrite Hloop. simpl.
  destruct (I2C.write 0 (I2C.start NUNCHUK_ADDRESS p.2)).
  reflexivity.
Qed.

End Polled.

(** The poller, seen through the log: the same counts and bytes, and the
    calls that the polling makes. *)
Lemma polled_logged {T} `{!I2C T} (k : nat) (w : T) (tr : list Call) :
  polled k (MkLogged w tr)
  = ((polled k w).1.1, (polled k w).1.2,
     MkLogged (polled k w).2
       (tr ++ poll_calls (polled k w).1.1 (polled k w).1.2
           ++ (if decide (length (polled k w).1.2 < k)%nat
               then [CAvailable 0] else []))).
Proof.
  revert w tr. induction k as [| k IH]; intros w tr.
  - simpl. rewrite app_nil_r. reflexivity.
  - cbn [polled]. simpl. unfold logged. simpl.
    destruct (I2C.available w) as [a w1].
    destruct (bool_of_int a) eqn:Ha.
    + simpl. unfold logged. simpl.
      destruct (I2C.read w1) as [b w2]. simpl. rewrite IH.
      destruct (polled k w2) as [[avs bs] w']. simpl.
      rewrite <- !app_assoc. simpl.
      repeat case_decide; try lia; reflexivity.
    + apply bool_of_int_false in Ha. subst a. reflexivity.
Qed.

(** A whole [read()] under observation, in terms of what the transport
    hands to the poller. *)
Lemma read_observed {T} `{!I2C T} (cfg : Config) (w : T) (d : Frame) :
  let p := polled 6 (I2C.requestFrom NUNCHUK_ADDRESS NUNCHUK_MESSAGE_SIZE w).2 in
  ∃ (w' : T) (d' : Frame),
    Nunchuk.read cfg (observe w d)
    = Some (Z.of_nat (length p.1.2) =? 6,
            MkNunchuk
              (MkLogged w'
                 (CRequestFrom NUNCHUK_ADDRESS NUNCHUK_MESSAGE_SIZE
                    :: (poll_calls p.1.1 p.1.2 ++ last_poll (length p.1.2))
                    ++ rearm)) d')
    ∧ Nunchuk.read cfg (MkNunchuk w d)
      = Some (Z.of_nat (length p.1.2) =? 6, MkNunchuk w' d')
    ∧ vec_to_list d'
      = (decodeByte cfg <$> p.1.2) ++ drop (length p.1.2) (vec_to_list d).
Proof.
  intros p.
  destruct (read_polled cfg w d) as (d' & Hbare & Hfr).
  destruct (read_polled cfg (MkLogged w []) d) as (d'' & Hobs & Hfr').
  cbn zeta in *. fold p in Hbare, Hfr.
  assert (Hreq : (I2C.requestFrom NUNCHUK_ADDRESS NUNCHUK_MESSAGE_SIZE
                    (MkLogged w [])).2
                 = MkLogged
                     (I2C.requestFrom NUNCHUK_ADDRESS NUNCHUK_MESSAGE_SIZE w).2
                     [CRequestFrom NUNCHUK_ADDRESS NUNCHUK_MESSAGE_SIZE]).
  { simpl. unfold logged. simpl.
    destruct (I2C.requestFrom NUNCHUK_ADDRESS NUNCHUK_MESSAGE_SIZE w).
    reflexivity. }
  rewrite Hreq, polled_logged in Hobs, Hfr'. fold p in Hobs, Hfr'.
  cbn [fst snd] in Hobs, Hfr'.
  assert (d'' = d') by (apply vec_to_list_inj2; congruence). subst d''.
  eexists _, d'. split; [| split; [exact Hbare | exact Hfr]].
  fold (observe w d) in Hobs. rewrite Hobs. clear.
  simpl. unfold logged_, logged. simpl.
  destruct (I2C.write 0 (I2C.start NUNCHUK_ADDRESS p.2)) as [r w2]. simpl.
  unfold last_poll. rewrite <- !app_assoc. reflexivity.
Qed.

(** C2: for every prior frame and every transport that hands over only
    [k < 6] bytes to the polling of [read()], the call returns false, the
    bytes read are the ones the transport handed over, the indices below [k]
    hold their decoding, the indices from [k] on keep the values they had
    before the call, and the write that follows the loop is still made,
    once. *)
Theorem read_partial {T} `{!I2C T} (cfg : Config) (w : T) (d : Frame)
    (k : nat) :
  let bs :=
    (polled 6 (I2C.requestFrom NUNCHUK_ADDRESS NUNCHUK_MESSAGE_SIZE w).2).1.2 in
  length bs = k →
  (k < 6)%nat →
  ∃ n' : Nunchuk (Logged T),
    Nunchuk.read cfg (observe w d) = Some (false, n')
    ∧ Nunchuk.read cfg (MkNunchuk w d)
      = Some (false, MkNunchuk (inner (m_Wire n')) (m_NunchukData n'))
    ∧ reads_of (calls (m_Wire n')) = bs
    ∧ take k (vec_to_list (m_NunchukData n')) = (decodeByte cfg <$> bs)
    ∧ drop k (vec_to_list (m_NunchukData n')) = drop k (vec_to_list d)
    ∧ (∀ i : fin 6, (k ≤ i)%nat → m_NunchukData n' !!! i = d !!! i)
    ∧ occurrences rearm (calls (m_Wire n')) = 1%nat.
Proof.
  intros bs Hk Hlt.
  destruct (read_observed cfg w d) as (w' & d' & Hobs & Hbare & Hfr).
  cbn zeta in *.
  pose proof (polled_length 6
                (I2C.requestFrom NUNCHUK_ADDRESS NUNCHUK_MESSAGE_SIZE w).2)
    as [Hc _].
  set (p := polled 6 _) in *. subst bs.
  assert (Hfalse : (Z.of_nat (length p.1.2) =? 6) = false)
    by (apply Z.eqb_neq; lia).
  rewrite Hfalse in Hobs, Hbare.
  assert (Hlen : length (decodeByte cfg <$> p.1.2) = k)
    by (rewrite length_fmap; exact Hk).
  eexists. split; [exact Hobs |]. cbn [m_Wire m_NunchukData inner calls].
  split; [exact Hbare |].
  split; [apply reads_of_read_trace, Hc |].
  rewrite Hfr, Hk.
  split; [rewrite <- Hlen; apply take_app_length |].
  split; [rewrite <- Hlen at 1; apply drop_app_length |].
  split.
  - intros i Hi. apply vlookup_lookup.
    rewrite Hfr, Hk, lookup_app_r by lia.
    rewrite lookup_drop, Hlen.
    replace (k + (i - k))%nat with (fin_to_nat i) by lia.
    apply vlookup_lookup. reflexivity.
  - apply occurrences_read_trace, is_poll_loop.
Qed.

(** A device that sends three bytes into a frame of nines: the three bytes
    are read, indices 0 to 2 are replaced, indices 3 to 5 are not, and the
    result is false. *)
Lemma read_partial_witness :
  ∃ n' : Nunchuk (Logged FakeWire),
    Nunchuk.read plain_mode
      (observe (fake_bus [0x11; 0x22; 0x33]) [# 9; 9; 9; 9; 9; 9])
    = Some (false, n')
    ∧ Nunchuk.read plain_mode
        (MkNunchuk (fake_bus [0x11; 0x22; 0x33]) [# 9; 9; 9; 9; 9; 9])
      = Some (false, MkNunchuk (inner (m_Wire n')) (m_NunchukData n'))
    ∧ reads_of (calls (m_Wire n')) = [0x11; 0x22; 0x33]
    ∧ take 3 (vec_to_list (m_NunchukData n'))
      = (decodeByte plain_mode <$> [0x11; 0x22; 0x33])
    ∧ drop 3 (vec_to_list (m_NunchukData n'))
      = drop 3 (vec_to_list [# 9; 9; 9; 9; 9; 9])
    ∧ (∀ i : fin 6, (3 ≤ i)%nat →
         m_NunchukData n' !!! i = ([# 9; 9; 9; 9; 9; 9] : Frame) !!! i)
    ∧ occurrences rearm (calls (m_Wire n')) = 1%nat.
Proof.
  assert (Hlt : (3 < 6)%nat) by lia.
  exact (read_partial plain_mode (fake_bus [0x11; 0x22; 0x33])
           [# 9; 9; 9; 9; 9; 9] 3 eq_refl Hlt).
Defined.

(** C8: every call of [read()], with none, some or all six bytes obtained,
    ends with one transaction [start(0x52)], [write(0x00)], [stop()], made
    after the loop: the calls before it are the request and the polling of
    the loop, and the transaction occurs once among all the calls. *)
Theorem read_rearms_once {T} `{!I2C T} (cfg : Config) (w : T) (d : Frame) :
  ∃ (b : bool) (n' : Nunchuk (Logged T)) (poll : list Call),
    Nunchuk.read cfg (observe w d) = Some (b, n')
    ∧ calls (m_Wire n')
      = CRequestFrom NUNCHUK_ADDRESS NUNCHUK_MESSAGE_SIZE
          :: poll ++ [CStart 0x52; CWrite 0x00; CStop]
    ∧ forallb is_poll poll = true
    ∧ occurrences [CStart 0x52; CWrite 0x00; CStop] (calls (m_Wire n')) = 1%nat.
Proof.
  destruct (read_run cfg w d) as (avs & bs & w' & d' & _ & Hobs & _).
  eexists _, _, (poll_calls avs bs ++ last_poll (length bs)).
  split; [exact Hobs |].
  cbn [m_Wire calls].
  split; [reflexivity |].
  split; [apply is_poll_loop |].
  apply (occurrences_read_trace NUNCHUK_ADDRESS NUNCHUK_MESSAGE_SIZE), is_poll_loop.
Qed.

(** C10: whatever the transport does, and however many bytes [available()]
    reports, [read()] stores within the frame only: a store has a result
    exactly at the indices 0 to 5, and [read()] always has one, so the store
    outside the array is not reached.  The transport's [read()] is called at
    most six times, each time directly after an [available()] that gave a
    count other than zero. *)
Theorem read_in_bounds {T} `{!I2C T} (cfg : Config) (w : T) (d : Frame) :
  (∀ i v (d0 : Frame), is_Some (store i v d0) ↔ 0 <= i <= 5)
  ∧ is_Some (Nunchuk.read cfg (MkNunchuk w d))
  ∧ ∃ (b : bool) (n' : Nunchuk (Logged T)),
      Nunchuk.read cfg (observe w d) = Some (b, n')
      ∧ (length (reads_of (calls (m_Wire n'))) ≤ 6)%nat
      ∧ reads_guarded (calls (m_Wire n')) = true.
Proof.
  destruct (read_run cfg w d) as (avs & bs & w' & d' & Hrun & Hobs & Hbare).
  destruct Hrun as [Hc Hnz Hbd _]. simpl in Hbd.
  split; [intros i v d0; rewrite store_defined; lia |].
  split; [rewrite Hbare; eexists; reflexivity |].
  eexists _, _. split; [exact Hobs |].
  cbn [m_Wire calls]. split.
  - rewrite (reads_of_read_trace _ _ _ _ _ Hc). exact Hbd.
  - apply reads_guarded_read_trace, Hnz.
Qed.

(** A transport that reports a thousand bytes at every call still gives six
    bytes, stored at the six indices. *)
Example read_babbler :
  Nunchuk.read plain_mode (observe (MkBabbler 1000 0xFE) zero_frame)
  = Some (true,
          MkNunchuk
            (MkLogged (MkBabbler 1000 0x104)
               [CRequestFrom 0x52 6;
                CAvailable 1000; CRead 0xFE; CAvailable 1000; CRead 0xFF;
                CAvailable 1000; CRead 0x00; CAvailable 1000; CRead 0x01;
                CAvailable 1000; CRead 0x02; CAvailable 1000; CRead 0x03;
                CStart 0x52; CWrite 0x00; CStop])
            [# 0xFE; 0xFF; 0x00; 0x01; 0x02; 0x03]).
Proof. vm_compute. reflexivity. Qed.

(** A device that does not answer: no byte is read, the frame is kept and
    the write is still made. *)
Example read_silent :
  Nunchuk.read obfuscated_mode (observe (fake_bus []) [# 1; 2; 3; 4; 5; 6])
  = Some (false,
          MkNunchuk
            (MkLogged (fake_bus [])
               [CRequestFrom 0x52 6; CAvailable 0;
                CStart 0x52; CWrite 0x00; CStop])
            [# 1; 2; 3; 4; 5; 6]).
Proof. vm_compute. reflexivity. Qed.

(** Three bytes with the encryption in use: [0x80 ^ 0x17 = 0x97] and
    [0x97 + 0x17 = 0xAE]. *)
Example read_three_obfuscated :
  Nunchuk.read obfuscated_mode
    (MkNunchuk (fake_bus [0x80; 0x81; 0x82]) zero_frame)
  = Some (false,
          MkNunchuk (fake_bus [0x80; 0x81; 0x82])
            [# 0xAE; 0xAD; 0xAC; 0; 0; 0]).
Proof. vm_compute. reflexivity. Qed.

(** * A whole cycle on the simulated bus *)

(** C9, as the code has it: in plain mode, when the device answers
    [requestFrom(0x52, 6)] with [0x80, 0x80, 0x80, 0x80, 0x80, 0x00], a
    [read()] succeeds and the accessors give the joystick (0, 0), the
    acceleration (0, 0, 0), each raw value being [(0x80 << 2) | 0 = 512], and
    both buttons pressed; this for every prior frame and receive buffer. *)
Theorem end_to_end (d : Frame) (rx0 : list Z) :
  ∃ n' : Nunchuk FakeWire,
    Nunchuk.read plain_mode
      (MkNunchuk (MkFakeWire [0x80; 0x80; 0x80; 0x80; 0x80; 0x00] rx0) d)
    = Some (true, n')
    ∧ (Nunchuk.getJoystickX n', Nunchuk.getJoystickY n') = (0, 0)
    ∧ (Nunchuk.getAccelX n', Nunchuk.getAccelY n', Nunchuk.getAccelZ n')
      = (0, 0, 0)
    ∧ Nunchuk.getButtonC n' = true
    ∧ Nunchuk.getButtonZ n' = true.
Proof.
  exists (MkNunchuk (MkFakeWire [0x80; 0x80; 0x80; 0x80; 0x80; 0x00] [])
            [# 0x80; 0x80; 0x80; 0x80; 0x80; 0x00]).
  split; [| repeat split].
  inv_vec d. intros x0 x1 x2 x3 x4 x5. vm_compute. reflexivity.
Qed.

(** C9, as it is worded, asks for the acceleration (8, 8, 8): that fails on
    the bus of the scenario, here from a frame of zeros. *)
Lemma end_to_end_accel_not_8 :
  ¬ ∃ n' : Nunchuk FakeWire,
      Nunchuk.read plain_mode
        (MkNunchuk (fake_bus [0x80; 0x80; 0x80; 0x80; 0x80; 0x00]) zero_frame)
      = Some (true, n')
      ∧ (Nunchuk.getJoystickX n', Nunchuk.getJoystickY n') = (0, 0)
      ∧ (Nunchuk.getAccelX n', Nunchuk.getAccelY n', Nunchuk.getAccelZ n')
        = (8, 8, 8)
      ∧ Nunchuk.getButtonC n' = true
      ∧ Nunchuk.getButtonZ n' = true.
Proof.
  intros (n' & Hread & _ & Hacc & _).
  vm_compute in Hread. injection Hread as <-.
  vm_compute in Hacc. discriminate Hacc.
Qed.

(** * Further properties of the driver *)

(** ** What [read()] does with the frame it finds *)

(** X1: [read()] never looks at the frame.  From two frames, on the same
    transport, it returns the same result and leaves the transport in the
    same state; a call that returns true leaves the same frame, whatever was
    there before. *)
Theorem read_ignores_frame {T} `{!I2C T} (cfg : Config) (w : T)
    (d1 d2 : Frame) :
  ∃ (b : bool) (w' : T) (d1' d2' : Frame),
    Nunchuk.read cfg (MkNunchuk w d1) = Some (b, MkNunchuk w' d1')
    ∧ Nunchuk.read cfg (MkNunchuk w d2) = Some (b, MkNunchuk w' d2')
    ∧ (b = true → d1' = d2').
Proof.
  destruct (read_polled cfg w d1) as (d1' & Hr1 & Hf1).
  destruct (read_polled cfg w d2) as (d2' & Hr2 & Hf2).
  cbn zeta in *.
  set (p := polled 6 _) in *. clearbody p.
  eexists _, _, d1', d2'. split; [exact Hr1 |]. split; [exact Hr2 |].
  intros Hb. apply Z.eqb_eq in Hb.
  apply vec_to_list_inj2. rewrite Hf1, Hf2.
  rewrite !drop_ge by (rewrite length_vec_to_list; lia). reflexivity.
Qed.

(** X2: when the device does not answer, that is when the first
    [available()] after the request gives zero, [read()] returns false and
    the frame is the one it found. *)
Theorem read_no_answer {T} `{!I2C T} (cfg : Config) (w : T) (d : Frame) :
  (I2C.available
     (I2C.requestFrom NUNCHUK_ADDRESS NUNCHUK_MESSAGE_SIZE w).2).1 = 0 →
  ∃ w' : T, Nunchuk.read cfg (MkNunchuk w d) = Some (false, MkNunchuk w' d).
Proof.
  intros Hzero.
  destruct (read_polled cfg w d) as (d' & Hr & Hf). cbn zeta in *.
  assert (Hp : (polled 6 (I2C.requestFrom NUNCHUK_ADDRESS
                            NUNCHUK_MESSAGE_SIZE w).2).1.2 = []).
  { generalize dependent (I2C.requestFrom NUNCHUK_ADDRESS
                            NUNCHUK_MESSAGE_SIZE w).2.
    intros w0 Hzero _ _. cbn [polled].
    destruct (I2C.available w0) as [a w1]. simpl in Hzero. subst a.
    reflexivity. }
  rewrite Hp in Hr, Hf. simpl in Hr, Hf.
  apply vec_to_list_inj2 in Hf. subst d'.
  eexists. exact Hr.
Qed.

Lemma read_no_answer_witness :
  ∃ w' : FakeWire,
    Nunchuk.read obfuscated_mode (MkNunchuk (fake_bus []) [# 1; 2; 3; 4; 5; 6])
    = Some (false, MkNunchuk w' [# 1; 2; 3; 4; 5; 6]).
Proof.
  apply (read_no_answer obfuscated_mode (fake_bus []) [# 1; 2; 3; 4; 5; 6]).
  reflexivity.
Defined.

Lemma availables_of_poll_calls avs bs tl :
  length avs = length bs →
  availables_of (poll_calls avs bs ++ tl) = avs ++ availables_of tl.
Proof.
  revert bs. induction avs as [| a avs IH]; intros [| b bs] Hc;
    simpl in *; try congruence.
  f_equal. apply IH. congruence.
Qed.

(** X3: [available()] is asked once for every byte obtained and once more
    when the loop ends early, never a seventh time. *)
Theorem read_available_count {T} `{!I2C T} (cfg : Config) (w : T) (d : Frame) :
  ∃ (b : bool) (n' : Nunchuk (Logged T)),
    Nunchuk.read cfg (observe w d) = Some (b, n')
    ∧ length (availables_of (calls (m_Wire n')))
      = Nat.min (S (length (reads_of (calls (m_Wire n'))))) 6.
Proof.
  destruct (read_run cfg w d) as (avs & bs & w' & d' & Hrun & Hobs & _).
  destruct Hrun as [Hc _ Hbd _]. simpl in Hbd.
  eexists _, _. split; [exact Hobs |]. cbn [m_Wire calls].
  rewrite (reads_of_read_trace _ _ _ _ _ Hc).
  simpl. rewrite <- app_assoc, availables_of_poll_calls by exact Hc.
  rewrite length_app, Hc.
  unfold last_poll. case_decide; simpl; lia.
Qed.

(** ** [decodeByte] on bytes *)

(** The byte that [decodeByte] takes to [y] when the encryption is in use. *)
Lemma decodeByte_obfuscated_inverse y :
  is_u8 y →
  let x := Z.lxor ((y - 0x17) mod 256) 0x17 in
  is_u8 x ∧ decodeByte obfuscated_mode x = y
  ∧ Z.lxor ((decodeByte obfuscated_mode y - 0x17) mod 256) 0x17 = y
  ∧ is_u8 (decodeByte obfuscated_mode y).
Proof.
  intros Hy x. subst x.
  pose proof (u8_forall
    (λ y, let x := Z.lxor ((y - 0x17) mod 256) 0x17 in
          (0 <=? x) && (x <? 256) && (decodeByte obfuscated_mode x =? y)
          && (Z.lxor ((decodeByte obfuscated_mode y - 0x17) mod 256) 0x17 =? y)
          && (0 <=? decodeByte obfuscated_mode y)
          && (decodeByte obfuscated_mode y <? 256))
    ltac:(vm_compute; reflexivity) y Hy) as Hchk.
  cbn zeta in Hchk. unfold is_u8.
  repeat (apply andb_true_iff in Hchk as [Hchk ?]).
  repeat split; lia.
Qed.

(** X4: in either mode [decodeByte] maps bytes to bytes, one to one and
    onto: no two bytes are decoded to the same byte, and every byte is the
    decoding of one. *)
Theorem decodeByte_permutes (cfg : Config) (x y : Z) :
  is_u8 x → is_u8 y →
  is_u8 (decodeByte cfg x)
  ∧ (decodeByte cfg x = decodeByte cfg y → x = y)
  ∧ ∃ x', is_u8 x' ∧ decodeByte cfg x' = y.
Proof.
  intros Hx Hy. destruct cfg as [[|]].
  - (* the encryption is disabled *)
    split; [exact Hx |]. split; [intros H; exact H |].
    exists y. split; [exact Hy | reflexivity].
  - change {| NUNCHUK_DISABLE_ENCRYPTION := false |} with obfuscated_mode.
    destruct (decodeByte_obfuscated_inverse x Hx) as (_ & _ & Hinvx & Hbx).
    destruct (decodeByte_obfuscated_inverse y Hy) as (Hpre & Himg & Hinvy & _).
    split; [exact Hbx |]. split.
    + intros Heq. rewrite <- Hinvx, <- Hinvy, Heq. reflexivity.
    + eexists. split; [exact Hpre | exact Himg].
Qed.

(** The bytes [0x00] and [0xFF] with the encryption in use: they are decoded
    to [0x2E] and [0xFF], and [0xFF] is the decoding of [0xFF]. *)
Lemma decodeByte_permutes_witness :
  is_u8 (decodeByte obfuscated_mode 0x00)
  ∧ (decodeByte obfuscated_mode 0x00 = decodeByte obfuscated_mode 0xFF
     → 0x00 = 0xFF)
  ∧ ∃ x', is_u8 x' ∧ decodeByte obfuscated_mode x' = 0xFF.
Proof.
  apply (decodeByte_permutes obfuscated_mode 0x00 0xFF); unfold is_u8; lia.
Defined.

Lemma decodeByte_u8 cfg b : is_u8 b → is_u8 (decodeByte cfg b).
Proof.
  intros Hb. destruct cfg as [[|]]; [exact Hb |].
  apply (decodeByte_obfuscated_inverse b Hb).
Qed.

(** ** The frame holds bytes *)

Lemma frame_ok_Forall (d : Frame) : frame_ok d ↔ Forall is_u8 (vec_to_list d).
Proof. unfold frame_ok. symmetry. apply Forall_vlookup. Qed.

Lemma read_bytes {T} `{!I2C T} (cfg : Config) (w : T) (d : Frame) :
  (∀ w0 : T, is_u8 (I2C.read w0).1) →
  ∃ (b : bool) (n' : Nunchuk T),
    Nunchuk.read cfg (MkNunchuk w d) = Some (b, n')
    ∧ (b = true → frame_ok (m_NunchukData n'))
    ∧ (frame_ok d → frame_ok (m_NunchukData n')).
Proof.
  intros Hbyte.
  destruct (read_polled cfg w d) as (d' & Hr & Hf). cbn zeta in *.
  pose proof (polled_bytes 6
                (I2C.requestFrom NUNCHUK_ADDRESS NUNCHUK_MESSAGE_SIZE w).2
                Hbyte) as Hbs.
  set (p := polled 6 _) in *. clearbody p.
  assert (Hdec : Forall is_u8 (decodeByte cfg <$> p.1.2)).
  { apply Forall_fmap. eapply Forall_impl; [exact Hbs |].
    intros b Hb. apply decodeByte_u8, Hb. }
  eexists _, _. split; [exact Hr |]. cbn [m_NunchukData]. split.
  - intros Hb. apply Z.eqb_eq in Hb.
    apply frame_ok_Forall. rewrite Hf.
    rewrite drop_ge by (rewrite length_vec_to_list; lia).
    rewrite app_nil_r. exact Hdec.
  - intros Hok. apply frame_ok_Forall. rewrite Hf.
    apply Forall_app. split; [exact Hdec |].
    apply Forall_drop, frame_ok_Forall, Hok.
Qed.

(** X5: on the Wire.h transport, whatever [Wire] does, the frame holds bytes
    after a [read()] that returns true, and still holds bytes after any
    [read()] when it held bytes before: [WireI2C::read()] narrows the [int] of
    [Wire.read()] to [uint8_t], and [decodeByte] keeps bytes. *)
Theorem read_keeps_bytes {W} `{!TwoWire W} (cfg : Config) (w : WireI2C W)
    (d : Frame) :
  ∃ (b : bool) (n' : Nunchuk (WireI2C W)),
    Nunchuk.read cfg (MkNunchuk w d) = Some (b, n')
    ∧ (b = true → frame_ok (m_NunchukData n'))
    ∧ (frame_ok d → frame_ok (m_NunchukData n')).
Proof.
  apply read_bytes. intros w0. simpl.
  destruct (Wire.read (the_Wire w0)) as [r w1]. simpl.
  unfold is_u8, to_u8. apply Z.mod_pos_bound. lia.
Qed.

(** With an empty [Wire], [WireI2C::read()] gives [0xFF] for the -1 of
    [Wire.read()]; with a value beyond [uint8_t] in the buffer of the
    scenario, the frame still gets bytes. *)
Example WireI2C_read_empty :
  I2C.read (MkWireI2C ([] : list Z)) = (0xFF, MkWireI2C []).
Proof. reflexivity. Qed.

Example read_WireI2C :
  Nunchuk.read plain_mode
    (MkNunchuk (MkWireI2C [0x80; 0x7F; 0x1FF; 0; 1; 2; 3]) zero_frame)
  = Some (true, MkNunchuk (MkWireI2C [3]) [# 0x80; 0x7F; 0xFF; 0; 1; 2]).
Proof. vm_compute. reflexivity. Qed.

(** ** The readings and the frame *)

Lemma joystick_exact b :
  is_u8 b → to_i8 (to_int (to_i16 b - 128)) = b - 128.
Proof.
  unfold is_u8, to_int. intros Hb.
  rewrite (to_i16_small b) by lia.
  rewrite (to_i16_small (b - 128)) by lia.
  apply to_i8_small. lia.
Qed.

(** A field of two bits below a shifted byte: [|] adds them. *)
Lemma lor_shiftl_2 c r :
  0 <= c → 0 <= r < 4 → Z.lor (Z.shiftl c 2) r = 4 * c + r.
Proof.
  intros Hc Hr.
  assert (Hdisj : Z.land (Z.shiftl c 2) r = 0).
  { apply Z.bits_inj'. intros n Hn.
    rewrite Z.land_spec, Z.bits_0.
    destruct (Z_lt_dec n 2) as [Hlow | Hhigh].
    - rewrite Z.shiftl_spec_low by lia. reflexivity.
    - assert (Hlog : Z.log2 r < n).
      { destruct (Z.eq_dec r 0) as [-> | Hnz]; [simpl; lia |].
        apply Z.lt_le_trans with 2; [| lia].
        apply Z.log2_lt_pow2; lia. }
      rewrite (Z.bits_above_log2 r n) by lia.
      apply andb_false_r. }
  pose proof (Z.add_lor_land (Z.shiftl c 2) r) as Hsum.
  rewrite Hdisj in Hsum. rewrite Z.shiftl_mul_pow2 in Hsum |- * by lia.
  change (2 ^ 2) with 4 in Hsum |- *. lia.
Qed.

Lemma accel_raw_fields c f s :
  is_u8 c → is_u8 f → 0 <= s →
  ∃ r, r = Z.land (Z.shiftr f s) 3 ∧ 0 <= r < 4
       ∧ Nunchuk.accel_raw c f s = 4 * c + r
       ∧ to_i16 (to_int (to_i16 (Nunchuk.accel_raw c f s) - to_i16 512))
         = 4 * c + r - 512.
Proof.
  intros Hc Hf Hs.
  destruct (accel_raw_spec c f s Hc Hf Hs) as [Heq Hrange].
  exists (Z.land (Z.shiftr f s) 3).
  assert (Hr : 0 <= Z.land (Z.shiftr f s) 3 < 4).
  { change 3 with (Z.ones 2). rewrite Z.land_ones by lia.
    apply Z.mod_pos_bound. lia. }
  split; [reflexivity |]. split; [exact Hr |].
  rewrite (accel_centered _ Hrange), Heq.
  rewrite lor_shiftl_2 by (unfold is_u8 in Hc; lia).
  split; reflexivity.
Qed.

(** Byte 5 from its five fields, the two buttons read as the code reads
    them. *)
Lemma byte5_fields x :
  is_u8 x →
  x = 64 * Z.land (Z.shiftr x 6) 3 + 16 * Z.land (Z.shiftr x 4) 3
      + 4 * Z.land (Z.shiftr x 2) 3
      + 2 * int_of_bool (negb (bool_of_int
              (Z.land (to_int (Z.shiftr (to_int (Z.lnot x)) 1))
                      (int_of_bool (1 =? 1)))))
      + int_of_bool (negb (bool_of_int
              (Z.land (to_int (Z.shiftr (to_int (Z.lnot x)) 0))
                      (int_of_bool (1 =? 1))))).
Proof.
  intros Hx. apply Z.eqb_eq. revert x Hx.
  apply (u8_forall (λ x, x =? _)). vm_compute. reflexivity.
Qed.

(** X6: the seven readings lose nothing of a frame of bytes: the frame is
    rebuilt from the two joystick values, the three accelerations and the two
    buttons. *)
Theorem frame_of_readings {T} (n : Nunchuk T) :
  frame_ok (m_NunchukData n) →
  m_NunchukData n
  = [# Nunchuk.getJoystickX n + 128;
       Nunchuk.getJoystickY n + 128;
       (Nunchuk.getAccelX n + 512) / 4;
       (Nunchuk.getAccelY n + 512) / 4;
       (Nunchuk.getAccelZ n + 512) / 4;
       64 * ((Nunchuk.getAccelZ n + 512) mod 4)
       + 16 * ((Nunchuk.getAccelY n + 512) mod 4)
       + 4 * ((Nunchuk.getAccelX n + 512) mod 4)
       + 2 * int_of_bool (negb (Nunchuk.getButtonC n))
       + int_of_bool (negb (Nunchuk.getButtonZ n)) ].
Proof.
  intros Hok. set (d := m_NunchukData n) in *.
  destruct (accel_raw_fields (d !!! 2%fin) (d !!! 5%fin) 2 (Hok _) (Hok _))
    as (rx & Hrx & Hrxb & _ & Hax); [lia |].
  destruct (accel_raw_fields (d !!! 3%fin) (d !!! 5%fin) 4 (Hok _) (Hok _))
    as (ry & Hry & Hryb & _ & Hay); [lia |].
  destruct (accel_raw_fields (d !!! 4%fin) (d !!! 5%fin) 6 (Hok _) (Hok _))
    as (rz & Hrz & Hrzb & _ & Haz); [lia |].
  assert (Hdiv : ∀ c r, 0 <= r < 4 → (4 * c + r - 512 + 512) / 4 = c
                                     ∧ (4 * c + r - 512 + 512) mod 4 = r).
  { intros c r Hr. replace (4 * c + r - 512 + 512) with (r + c * 4) by lia.
    rewrite Z.div_add, Z.mod_add by lia.
    rewrite Z.div_small, Z.mod_small by lia. split; lia. }
  unfold Nunchuk.getAccelX, Nunchuk.getAccelY, Nunchuk.getAccelZ,
    Nunchuk.getAccelRawX, Nunchuk.getAccelRawY, Nunchuk.getAccelRawZ,
    NUNCHUK_ACCEL_X_ZERO, NUNCHUK_ACCEL_Y_ZERO, NUNCHUK_ACCEL_Z_ZERO.
  fold d. rewrite Hax, Hay, Haz.
  destruct (Hdiv (d !!! 2%fin) rx Hrxb) as [-> ->].
  destruct (Hdiv (d !!! 3%fin) ry Hryb) as [-> ->].
  destruct (Hdiv (d !!! 4%fin) rz Hrzb) as [-> ->].
  unfold Nunchuk.getJoystickX, Nunchuk.getJoystickY,
    Nunchuk.getJoystickRawX, Nunchuk.getJoystickRawY,
    NUNCHUK_JOYSTICK_X_ZERO, NUNCHUK_JOYSTICK_Y_ZERO.
  fold d. rewrite !joystick_exact by apply Hok.
  unfold Nunchuk.getButtonC, Nunchuk.getButtonZ. fold d.
  subst rx ry rz. rewrite <- (byte5_fields (d !!! 5%fin)) by apply Hok.
  replace (d !!! 0%fin - 128 + 128) with (d !!! 0%fin) by lia.
  replace (d !!! 1%fin - 128 + 128) with (d !!! 1%fin) by lia.
  clearbody d. clear Hok Hax Hay Haz Hrxb Hryb Hrzb.
  inv_vec d. intros. reflexivity.
Qed.

(** A frame with every field different: joystick (-127, 126), acceleration
    (-243, 6, 255) and button Z alone pressed. *)
Lemma frame_of_readings_witness :
  ([# 0x01; 0xFE; 0x43; 0x81; 0xBF; 0xE6] : Frame)
  = [# -127 + 128; 126 + 128; (-243 + 512) / 4; (6 + 512) / 4;
       (255 + 512) / 4;
       64 * ((255 + 512) mod 4) + 16 * ((6 + 512) mod 4)
       + 4 * ((-243 + 512) mod 4) + 2 * 1 + 0 ].
Proof.
  apply (frame_of_readings (MkNunchuk tt [# 0x01; 0xFE; 0x43; 0x81; 0xBF; 0xE6])).
  apply frame_ok_Forall. unfold is_u8. repeat constructor; simpl; lia.
Defined.

(** ** [init()] *)

Section InitLoop.

Context {T : Type} `{!I2C T}.

Lemma init_loop_exit i out (n : Nunchuk T) :
  ¬ i < 6 → Nunchuk.init_loop i out n = Some (out, n).
Proof.
  intros Hi. rewrite Nunchuk.init_loop_equation_1.
  destruct (Z_lt_dec i 6); [contradiction | reflexivity].
Qed.

Lemma init_loop_skip i out (n n1 : Nunchuk T) :
  i < 6 →
  wire I2C.available n = Some (0, n1) →
  Nunchuk.init_loop i out n = Nunchuk.init_loop (to_u8 (i + 1)) out n1.
Proof.
  intros Hi Hav. rewrite Nunchuk.init_loop_equation_1.
  destruct (Z_lt_dec i 6); [| contradiction].
  simpl. rewrite Hav. reflexivity.
Qed.

Lemma init_loop_take i a b out (n n1 n2 : Nunchuk T) :
  i < 6 →
  wire I2C.available n = Some (a, n1) →
  a ≠ 0 →
  wire I2C.read n1 = Some (b, n2) →
  Nunchuk.init_loop i out n
  = Nunchuk.init_loop (to_u8 (i + 1))
      (out ++ [PrintHex b; PrintStr " "%string]) n2.
Proof.
  intros Hi Hav Ha Hrd. rewrite Nunchuk.init_loop_equation_1.
  destruct (Z_lt_dec i 6); [| contradiction].
  simpl. rewrite Hav. simpl.
  apply bool_of_int_true in Ha. rewrite Ha. simpl. rewrite Hrd. reflexivity.
Qed.

End InitLoop.

Section InitRun.

Context {T : Type} `{!I2C T}.

Lemma init_loop_run (k j : nat) (w : T) (tr : list Call) (out : list Out)
    (d : Frame) :
  (j + k = 6)%nat →
  ∃ (probes : list (Z * option Z)) (w' : T),
    length probes = k
    ∧ forallb probe_ok probes = true
    ∧ Nunchuk.init_loop (Z.of_nat j) out (MkNunchuk (MkLogged w tr) d)
      = Some (out ++ flat_map probe_out probes,
              MkNunchuk (MkLogged w' (tr ++ flat_map probe_calls probes)) d)
    ∧ Nunchuk.init_loop (Z.of_nat j) out (MkNunchuk w d)
      = Some (out ++ flat_map probe_out probes, MkNunchuk w' d).
Proof.
  revert j w tr out. induction k as [| k IH]; intros j w tr out Hjk.
  - exists [], w. simpl. rewrite !app_nil_r.
    repeat split; apply init_loop_exit; lia.
  - assert (Hlt : Z.of_nat j < 6) by lia.
    assert (Hnext : to_u8 (Z.of_nat j + 1) = Z.of_nat (S j))
      by (rewrite to_u8_small; lia).
    destruct (I2C.available w) as [a w1] eqn:Hav.
    assert (Hlog : wire I2C.available (MkNunchuk (MkLogged w tr) d)
                   = Some (a, MkNunchuk (MkLogged w1 (tr ++ [CAvailable a])) d)).
    { unfold wire. simpl. unfold logged. simpl. rewrite Hav. reflexivity. }
    assert (Hbare : wire I2C.available (MkNunchuk w d)
                    = Some (a, MkNunchuk w1 d)).
    { unfold wire. simpl. rewrite Hav. reflexivity. }
    destruct (decide (a = 0)) as [-> | Ha].
    + destruct (IH (S j) w1 (tr ++ [CAvailable 0]) out)
        as (probes & w' & Hlen & Hok & Hl & Hb); [lia |].
      exists ((0, None) :: probes), w'. simpl.
      split; [lia |]. split; [exact Hok |]. split.
      * rewrite (init_loop_skip _ _ _ _ Hlt Hlog), Hnext, Hl.
        rewrite <- app_assoc. reflexivity.
      * rewrite (init_loop_skip _ _ _ _ Hlt Hbare), Hnext, Hb. reflexivity.
    + destruct (I2C.read w1) as [b w2] eqn:Hrd.
      assert (Hlogr : wire I2C.read (MkNunchuk (MkLogged w1 (tr ++ [CAvailable a])) d)
                      = Some (b, MkNunchuk
                                   (MkLogged w2
                                      ((tr ++ [CAvailable a]) ++ [CRead b])) d)).
      { unfold wire. simpl. unfold logged. simpl. rewrite Hrd. reflexivity. }
      assert (Hbarer : wire I2C.read (MkNunchuk w1 d)
                       = Some (b, MkNunchuk w2 d)).
      { unfold wire. simpl. rewrite Hrd. reflexivity. }
      destruct (IH (S j) w2 ((tr ++ [CAvailable a]) ++ [CRead b])
                  (out ++ [PrintHex b; PrintStr " "%string]))
        as (probes & w' & Hlen & Hok & Hl & Hb); [lia |].
      exists ((a, Some b) :: probes), w'. simpl.
      split; [lia |]. split.
      { rewrite Hok. unfold probe_ok. simpl.
        destruct (Z.eqb_spec a 0); [contradiction | reflexivity]. }
      split.
      * rewrite (init_loop_take _ _ _ _ _ _ _ Hlt Hlog Ha Hlogr), Hnext, Hl.
        rewrite <- !app_assoc. reflexivity.
      * rewrite (init_loop_take _ _ _ _ _ _ _ Hlt Hbare Ha Hbarer), Hnext, Hb.
        rewrite <- !app_assoc. reflexivity.
Qed.

End InitRun.

Lemma is_poll_probes probes : forallb is_poll (flat_map probe_calls probes) = true.
Proof.
  induction probes as [| [a [b |]] probes IH]; simpl; auto.
Qed.

Lemma availables_of_probes probes :
  length (availables_of (flat_map probe_calls probes)) = length probes.
Proof.
  induction probes as [| [a [b |]] probes IH]; simpl; auto.
Qed.

Lemma reads_of_probes probes :
  flat_map probe_out probes
  = flat_map (λ b, [PrintHex b; PrintStr " "%string])
      (reads_of (flat_map probe_calls probes)).
Proof.
  induction probes as [| [a [b |]] probes IH]; simpl; auto.
  rewrite IH. reflexivity.
Qed.

Lemma reads_guarded_probes probes :
  forallb probe_ok probes = true →
  reads_guarded (flat_map probe_calls probes ++ [CStop]) = true.
Proof.
  induction probes as [| [a [b |]] probes IH]; intros Hok; [reflexivity | |];
    simpl in Hok; apply andb_true_iff in Hok as [Ha Hok];
    unfold probe_ok in Ha; simpl in Ha.
  - simpl. rewrite Ha. simpl. apply IH, Hok.
  - specialize (IH Hok).
    change (flat_map probe_calls ((a, None) :: probes) ++ [CStop])
      with (CAvailable a :: (flat_map probe_calls probes ++ [CStop])).
    destruct probes as [| [a' [b' |]] probes]; simpl in *; exact IH.
Qed.

Section Init.

Context {T : Type} `{!I2C T}.
Variable cfg : Config.

(** [init()] as a whole: the prefix of calls it always makes, then, with
    [NUNCHUK_DEBUG], the identity query with its six turns. *)
Lemma init_run (debug : bool) (w : T) (d : Frame) :
  ∃ (probes : list (Z * option Z)) (w' : T),
    length probes = (if debug then 6 else 0)%nat
    ∧ forallb probe_ok probes = true
    ∧ Nunchuk.init cfg debug (observe w d)
      = Some (if debug
              then flat_map probe_out probes ++ [Println; Delay 100]
              else [],
              MkNunchuk
                (MkLogged w'
                   (CSetClock 400000 :: handshake_calls cfg
                    ++ (if debug
                        then [CStart 0x52; CWrite 0xFA; CStop; CRequestFrom 0x52 6]
                             ++ flat_map probe_calls probes ++ [CStop]
                        else []))) d)
    ∧ Nunchuk.init cfg debug (MkNunchuk w d)
      = Some (if debug
              then flat_map probe_out probes ++ [Println; Delay 100]
              else [],
              MkNunchuk w' d).
Proof.
  unfold Nunchuk.init, handshake_calls, observe, bind, wire, wire_, ret.
  destruct debug, cfg as [[|]]; cbn [NUNCHUK_DISABLE_ENCRYPTION];
    simpl; unfold logged, logged_; simpl;
    repeat match goal with
           | |- context [I2C.write ?x ?w0] => destruct (I2C.write x w0); simpl
           | |- context [I2C.requestFrom ?x ?y ?w0] =>
               destruct (I2C.requestFrom x y w0); simpl
           end.
  - (* the identity query, encryption disabled *)
    destruct (init_loop_run 6 0 t4
                [CSetClock 400000; CStart NUNCHUK_ADDRESS; CWrite 240;
                 CWrite 85; CStop; CStart NUNCHUK_ADDRESS; CWrite 251;
                 CWrite 0; CStop; CStart NUNCHUK_ADDRESS; CWrite 250; CStop;
                 CRequestFrom NUNCHUK_ADDRESS NUNCHUK_MESSAGE_SIZE] [] d eq_refl)
      as (probes & w' & Hlen & Hok & Hl & Hb).
    change (Z.of_nat 0) with 0 in Hl, Hb. rewrite Hl, Hb.
    exists probes, (I2C.stop w'). simpl. rewrite <- ?app_assoc.
    repeat split; assumption.
  - (* the identity query, encryption in use *)
    destruct (init_loop_run 6 0 t2
                [CSetClock 400000; CStart NUNCHUK_ADDRESS; CWrite 64;
                 CWrite 0; CStop; CStart NUNCHUK_ADDRESS; CWrite 250; CStop;
                 CRequestFrom NUNCHUK_ADDRESS NUNCHUK_MESSAGE_SIZE] [] d eq_refl)
      as (probes & w' & Hlen & Hok & Hl & Hb).
    change (Z.of_nat 0) with 0 in Hl, Hb. rewrite Hl, Hb.
    exists probes, (I2C.stop w'). simpl. rewrite <- ?app_assoc.
    repeat split; assumption.
  - eexists [], _. repeat split.
  - eexists [], _. repeat split.
Qed.

End Init.

Lemma reads_of_probes_length probes :
  (length (reads_of (flat_map probe_calls probes)) ≤ length probes)%nat.
Proof.
  induction probes as [| [a [b |]] probes IH]; simpl; lia.
Qed.

(** X7: the bus traffic of [init()], whatever the transport does.  The clock
    is set to 400 kHz, then come the two write transactions [F0 55] and
    [FB 00] when the encryption is disabled, the single one [40 00] when it
    is in use.  With [NUNCHUK_DEBUG] the query [FA] and a request for six
    bytes follow, then six turns that each ask [available()] once and read
    only after a count other than zero, then a [stop()].  The frame is never
    touched and the call always has a result. *)
Theorem init_bus {T} `{!I2C T} (cfg : Config) (debug : bool) (w : T)
    (d : Frame) :
  ∃ (out : list Out) (n' : Nunchuk (Logged T)) (polls : list Call),
    Nunchuk.init cfg debug (observe w d) = Some (out, n')
    ∧ Nunchuk.init cfg debug (MkNunchuk w d)
      = Some (out, MkNunchuk (inner (m_Wire n')) d)
    ∧ m_NunchukData n' = d
    ∧ calls (m_Wire n')
      = CSetClock 400000
        :: (if NUNCHUK_DISABLE_ENCRYPTION cfg
            then [CStart 0x52; CWrite 0xF0; CWrite 0x55; CStop;
                  CStart 0x52; CWrite 0xFB; CWrite 0x00; CStop]
            else [CStart 0x52; CWrite 0x40; CWrite 0x00; CStop])
        ++ (if debug
            then [CStart 0x52; CWrite 0xFA; CStop; CRequestFrom 0x52 6]
                 ++ polls ++ [CStop]
            else [])
    ∧ forallb is_poll polls = true
    ∧ length (availables_of polls) = (if debug then 6 else 0)%nat
    ∧ (length (reads_of polls) ≤ 6)%nat
    ∧ reads_guarded (polls ++ [CStop]) = true.
Proof.
  destruct (init_run cfg debug w d) as (probes & w' & Hlen & Hok & Hl & Hb).
  eexists _, _, (flat_map probe_calls probes).
  split; [exact Hl |]. cbn [m_Wire m_NunchukData inner calls].
  split; [exact Hb |]. split; [reflexivity |].
  split; [reflexivity |].
  split; [apply is_poll_probes |].
  split; [rewrite availables_of_probes; exact Hlen |].
  split.
  - pose proof (reads_of_probes_length probes). destruct debug; lia.
  - apply reads_guarded_probes, Hok.
Qed.

(** X8: what [init()] prints.  Without [NUNCHUK_DEBUG] it prints nothing and
    reads nothing; with it, it prints every byte it read from the bus, in
    order and each followed by a blank, then ends the line and waits 100
    ms. *)
Theorem init_prints {T} `{!I2C T} (cfg : Config) (debug : bool) (w : T)
    (d : Frame) :
  ∃ (out : list Out) (n' : Nunchuk (Logged T)),
    Nunchuk.init cfg debug (observe w d) = Some (out, n')
    ∧ out
      = (if debug
         then flat_map (λ b, [PrintHex b; PrintStr " "%string])
                (reads_of (calls (m_Wire n'))) ++ [Println; Delay 100]
         else [])
    ∧ (if debug then True else reads_of (calls (m_Wire n')) = []).
Proof.
  destruct (init_run cfg debug w d) as (probes & w' & Hlen & Hok & Hl & _).
  eexists _, _. split; [exact Hl |]. cbn [m_Wire calls].
  destruct debug.
  - split; [| exact I]. f_equal. rewrite reads_of_probes. f_equal.
    unfold handshake_calls. destruct cfg as [[|]]; simpl;
      rewrite reads_of_app; simpl; rewrite app_nil_r; reflexivity.
  - split; [reflexivity |].
    unfold handshake_calls. destruct cfg as [[|]]; reflexivity.
Qed.

(** [init()] on the simulated bus with a device that sends three bytes: three
    turns read, three do not, and the three bytes are printed. *)
Example init_three :
  Nunchuk.init plain_mode true (observe (fake_bus [0xA4; 0x20; 0x00]) zero_frame)
  = Some ([PrintHex 0xA4; PrintStr " "; PrintHex 0x20; PrintStr " ";
           PrintHex 0x00; PrintStr " "; Println; Delay 100],
          MkNunchuk
            (MkLogged (fake_bus [0xA4; 0x20; 0x00])
               [CSetClock 400000;
                CStart 0x52; CWrite 0xF0; CWrite 0x55; CStop;
                CStart 0x52; CWrite 0xFB; CWrite 0x00; CStop;
                CStart 0x52; CWrite 0xFA; CStop; CRequestFrom 0x52 6;
                CAvailable 3; CRead 0xA4; CAvailable 2; CRead 0x20;
                CAvailable 1; CRead 0x00;
                CAvailable 0; CAvailable 0; CAvailable 0; CStop])
            zero_frame).
Proof. vm_compute. reflexivity. Qed.

(** ** The two modes *)

(** X9: the build switch changes what is stored, nothing else.  On the same
    transport and frame, [read()] makes the same calls, returns the same
    result and leaves the transport in the same state in both modes.  The
    bytes [bs] that the transport hands over are the bytes read; in plain
    mode the frame becomes [bs] followed by the rest of the prior frame, in
    the other mode the decoding of [bs] followed by the same rest. *)
Theorem read_modes_agree {T} `{!I2C T} (w : T) (d : Frame) :
  let bs :=
    (polled 6 (I2C.requestFrom NUNCHUK_ADDRESS NUNCHUK_MESSAGE_SIZE w).2).1.2 in
  ∃ (b : bool) (w' : T) (tr : list Call) (dp dx : Frame),
    Nunchuk.read plain_mode (observe w d)
    = Some (b, MkNunchuk (MkLogged w' tr) dp)
    ∧ Nunchuk.read obfuscated_mode (observe w d)
      = Some (b, MkNunchuk (MkLogged w' tr) dx)
    ∧ Nunchuk.read plain_mode (MkNunchuk w d) = Some (b, MkNunchuk w' dp)
    ∧ Nunchuk.read obfuscated_mode (MkNunchuk w d) = Some (b, MkNunchuk w' dx)
    ∧ reads_of tr = bs
    ∧ (length bs ≤ 6)%nat
    ∧ (b = true ↔ length bs = 6%nat)
    ∧ vec_to_list dp = bs ++ drop (length bs) (vec_to_list d)
    ∧ vec_to_list dx
      = (decodeByte obfuscated_mode <$> bs) ++ drop (length bs) (vec_to_list d)
    ∧ take (length bs) (vec_to_list dx)
      = (decodeByte obfuscated_mode <$> take (length bs) (vec_to_list dp))
    ∧ drop (length bs) (vec_to_list dx) = drop (length bs) (vec_to_list dp).
Proof.
  intros bs.
  destruct (read_observed plain_mode w d) as (wp & dp & Hop & Hbp & Hfp).
  destruct (read_observed obfuscated_mode w d) as (wx & dx & Hox & Hbx & Hfx).
  cbn zeta in *.
  pose proof (polled_length 6
                (I2C.requestFrom NUNCHUK_ADDRESS NUNCHUK_MESSAGE_SIZE w).2)
    as [Hc Hk].
  destruct (read_polled plain_mode w d) as (dp' & Hbp' & _).
  destruct (read_polled obfuscated_mode w d) as (dx' & Hbx' & _).
  cbn zeta in *.
  set (p := polled 6 _) in *. subst bs.
  assert (wx = wp) by congruence. subst wx.
  assert (Hid : decodeByte plain_mode <$> p.1.2 = p.1.2)
    by (change (decodeByte plain_mode) with (@id Z); apply list_fmap_id).
  rewrite Hid in Hfp.
  assert (Hlen : length (decodeByte obfuscated_mode <$> p.1.2) = length p.1.2)
    by apply length_fmap.
  eexists _, wp, _, dp, dx.
  split; [exact Hop |]. split; [exact Hox |].
  split; [exact Hbp |]. split; [exact Hbx |].
  split; [apply reads_of_read_trace, Hc |].
  split; [exact Hk |].
  split; [rewrite Z.eqb_eq; lia |].
  split; [exact Hfp |]. split; [exact Hfx |].
  rewrite Hfx, Hfp. split.
  - rewrite take_app_length. rewrite <- Hlen at 1. apply take_app_length.
  - rewrite drop_app_length. rewrite <- Hlen at 1. apply drop_app_length.
Qed.
